(** * The network game list of OpenTTD (src/network/network_gamelist.cpp)

    A shallow embedding of the game list, its delayed (thread safe) insertion,
    the requery loop and the rebuild of the NewGRF information after a rescan,
    followed by the properties of the registry design that hold on them. *)

From Stdlib Require Import ZArith String Bool Arith Lia Permutation List.
Import ListNotations.

Local Open Scope string_scope.
Local Open Scope Z_scope.

(** ** Data model *)

(** Objects allocated with [new NetworkGameList] are identified by their
    address; the [next] field of the intrusive lists is the list structure. *)
Definition ptr := nat.

(** Modelled from the spec: [GRFStatus] is declared in newgrf_config.h, which
    is not among the sources; this file assigns [GCS_NOT_FOUND] and
    [GCS_UNKNOWN] only. *)
Inductive GRFStatus : Type :=
| GCS_UNKNOWN
| GCS_DISABLED
| GCS_NOT_FOUND
| GCS_INITIALISED
| GCS_ACTIVATED.

(** Modelled from the spec: [GRFConfig] is declared in newgrf_config.h, which
    is not among the sources.  The fields are the ones this file reads and
    writes: the identifier [ident.grfid] (uint32), the checksum
    [ident.md5sum], the resolved file reference, name and extended info, the
    status and the flag byte of the [GCF_COPY] assertion. *)
Record GRFConfig : Type := mkGRFConfig {
  grfid : Z;
  md5sum : list Z;
  filename : string;
  name : string;
  info : string;
  status : GRFStatus;
  flags : Z
}.

(** Modelled from the spec: [NetworkGameInfo] is declared in
    core/game_info.h, which is not among the sources.  The fields are the
    ones this file uses; [grfconfig] is the linked list of descriptors. *)
Record NetworkGameInfo : Type := mkNetworkGameInfo {
  server_name : string;
  grfconfig : list GRFConfig;
  version_compatible : bool;
  compatible : bool
}.

(** The value of [item->info = {}]. *)
Definition empty_info : NetworkGameInfo :=
  {| server_name := EmptyString; grfconfig := []; version_compatible := false;
     compatible := false |}.

(** Modelled from the spec: [NetworkGameList] is declared in
    network_gamelist.h, which is not among the sources. [retries] is a
    uint8 (line 143 copies it into one). *)
Record NetworkGameList : Type := mkNetworkGameList {
  game_info : NetworkGameInfo;
  connection_string : string;
  online : bool;
  manually : bool;
  retries : Z
}.

(** Modelled from the spec: the constructor [NetworkGameList(connection_string)]
    of network_gamelist.h, which is not among the sources; the spec gives a
    new entry empty info, zero retries and [manually_added = false]. *)
Definition new_NetworkGameList (cs : string) : NetworkGameList :=
  {| game_info := empty_info; connection_string := cs; online := false;
     manually := false; retries := 0 |}.

(** The calls into the rest of the program, in the order they are made. *)
Inductive Event : Type :=
| UpdateNetworkGameWindow
| NetworkRebuildHostList
| NetworkUDPQueryServer (cs : string)
| ClearGRFConfigList (item : ptr)
| DeleteItem (item : ptr)
| InvalidateWindowClassesData.

(** A node of a linked list: its address and its contents. *)
Definition Node : Type := (ptr * NetworkGameList)%type.

(** The globals of the file, the allocator and the trace of outgoing calls. *)
Record State : Type := mkState {
  network_game_list : list Node;                    (* _network_game_list *)
  network_game_delayed_insertion_list : list Node;  (* head first *)
  requery_cnt : Z;                                  (* static uint8 *)
  heap_top : ptr;                                   (* next address of new *)
  events : list Event                               (* oldest first *)
}.

Definition initial_state : State :=
  {| network_game_list := []; network_game_delayed_insertion_list := [];
     requery_cnt := 0; heap_top := 0%nat; events := [] |}.

Definition set_game_list (l : list Node) (st : State) : State :=
  {| network_game_list := l;
     network_game_delayed_insertion_list := network_game_delayed_insertion_list st;
     requery_cnt := requery_cnt st; heap_top := heap_top st;
     events := events st |}.

Definition set_delayed (l : list Node) (st : State) : State :=
  {| network_game_list := network_game_list st;
     network_game_delayed_insertion_list := l;
     requery_cnt := requery_cnt st; heap_top := heap_top st;
     events := events st |}.

Definition set_requery_cnt (c : Z) (st : State) : State :=
  {| network_game_list := network_game_list st;
     network_game_delayed_insertion_list := network_game_delayed_insertion_list st;
     requery_cnt := c; heap_top := heap_top st; events := events st |}.

Definition emit (evs : list Event) (st : State) : State :=
  {| network_game_list := network_game_list st;
     network_game_delayed_insertion_list := network_game_delayed_insertion_list st;
     requery_cnt := requery_cnt st; heap_top := heap_top st;
     events := (events st ++ evs)%list |}.

Definition set_info (i : NetworkGameInfo) (item : NetworkGameList) : NetworkGameList :=
  {| game_info := i; connection_string := connection_string item;
     online := online item; manually := manually item; retries := retries item |}.

Definition set_online (b : bool) (item : NetworkGameList) : NetworkGameList :=
  {| game_info := game_info item; connection_string := connection_string item;
     online := b; manually := manually item; retries := retries item |}.

Definition set_manually (b : bool) (item : NetworkGameList) : NetworkGameList :=
  {| game_info := game_info item; connection_string := connection_string item;
     online := online item; manually := b; retries := retries item |}.

Definition set_retries (r : Z) (item : NetworkGameList) : NetworkGameList :=
  {| game_info := game_info item; connection_string := connection_string item;
     online := online item; manually := manually item; retries := r |}.

(** The keys of a list, in list order. *)
Definition keys (l : list Node) : list string :=
  map (fun n => connection_string (snd n)) l.

(** A write through a pointer to the node at a position of a list. *)
Fixpoint update_at (i : nat) (v : NetworkGameList) (l : list Node) {struct l}
  : list Node :=
  match l with
  | [] => []
  | (q, item) :: rest =>
      match i with
      | O => (q, v) :: rest
      | S i' => (q, item) :: update_at i' v rest
      end
  end.

(** A uint8 after an arithmetic operation. *)
Definition uint8 (z : Z) : Z := z mod 256.

(** [HasBit(x, y)] of core/bitmath_func.hpp. *)
Definition HasBit (x y : Z) : bool := Z.testbit x y.

Definition MAX_GAME_LIST_REQUERY_COUNT : Z := 10.
Definition REQUERY_EVERY_X_GAMELOOPS : Z := 60.
Definition REFRESH_GAMEINFO_X_REQUERIES : Z := 50.

(** ** The push of lines 35-36, instruction by instruction

    Every producer owns the item it pushes; the only shared variable is the
    head of the delayed insertion list.  A schedule names, step by step, the
    producer that executes its next instruction. *)

Inductive ProducerPC : Type :=
| AtLoad              (* line 35, before the load *)
| AtCompareExchange   (* line 36, before a compare_exchange_weak *)
| Returned.

Record PushState : Type := mkPushState {
  head : option ptr;             (* _network_game_delayed_insertion_list *)
  next_of : ptr -> option ptr;   (* item->next of the item at an address *)
  pc_of : ptr -> ProducerPC      (* where the producer of an item stands *)
}.

(** A step of the producer of [item].  [Run] is its next instruction on the
    current value of the head; [FailWeak] is a compare_exchange_weak that
    fails although the values are equal; [Stale] is a relaxed load, or a
    failed compare-exchange, that observes another value than the current
    one (an older head). *)
Inductive PushAction : Type :=
| Run (item : ptr)
| FailWeak (item : ptr)
| Stale (item : ptr) (seen : option ptr).

Definition upd {A : Type} (f : ptr -> A) (p : ptr) (v : A) : ptr -> A :=
  fun q => if Nat.eqb q p then v else f q.

Definition same_pointer (a b : option ptr) : bool :=
  match a, b with
  | None, None => true
  | Some x, Some y => Nat.eqb x y
  | _, _ => false
  end.

(** A failed compare-exchange stores the value it saw in [item->next]. *)
Definition observe (p : ptr) (seen : option ptr) (s : PushState) : PushState :=
  {| head := head s; next_of := upd (next_of s) p seen; pc_of := pc_of s |}.

Definition reload (p : ptr) (s : PushState) : PushState := observe p (head s) s.

(** Line 35: the value loaded is stored in [item->next]. *)
Definition load (p : ptr) (seen : option ptr) (s : PushState) : PushState :=
  {| head := head s; next_of := upd (next_of s) p seen;
     pc_of := upd (pc_of s) p AtCompareExchange |}.

Definition push_step (a : PushAction) (s : PushState) : PushState :=
  match a with
  | Run p =>
      match pc_of s p with
      | AtLoad => load p (head s) s
      | AtCompareExchange =>
          if same_pointer (head s) (next_of s p)
          then {| head := Some p; next_of := next_of s;
                  pc_of := upd (pc_of s) p Returned |}
          else reload p s
      | Returned => s
      end
  | FailWeak p =>
      match pc_of s p with
      | AtCompareExchange => reload p s
      | _ => s
      end
  | Stale p seen =>
      match pc_of s p with
      | AtLoad => load p seen s
      | AtCompareExchange => observe p seen s
      | Returned => s
      end
  end.

Definition run_pushes (schedule : list PushAction) (s : PushState) : PushState :=
  fold_left (fun s a => push_step a s) schedule s.

(** The producers of [items] are about to start on an empty list. *)
Definition push_init (items : list Node) : PushState :=
  {| head := None;
     next_of := fun _ => None;
     pc_of := fun p => if existsb (fun n => Nat.eqb (fst n) p) items
                       then AtLoad else Returned |}.

Definition all_returned (items : list Node) (s : PushState) : bool :=
  forallb (fun n => match pc_of s (fst n) with Returned => true | _ => false end)
          items.

(** The addresses met from a head along the [next] fields. *)
Fixpoint chain (fuel : nat) (h : option ptr) (next : ptr -> option ptr) : list ptr :=
  match fuel with
  | O => []
  | S fuel' =>
      match h with
      | None => []
      | Some p => p :: chain fuel' (next p) next
      end
  end.

Definition contents_of (items : list Node) (p : ptr) : NetworkGameList :=
  match find (fun n => Nat.eqb (fst n) p) items with
  | Some n => snd n
  | None => new_NetworkGameList EmptyString
  end.

(** The delayed insertion list the producers of [items] leave behind. *)
Definition pushed_list (items : list Node) (s : PushState) : list Node :=
  map (fun p => (p, contents_of items p))
      (chain (List.length items) (head s) (next_of s)).

(** The list [l] is what the [next] fields link from the head [h]. *)
Fixpoint linked (next : ptr -> option ptr) (h : option ptr) (l : list ptr) : Prop :=
  match l with
  | [] => h = None
  | p :: l' => h = Some p /\ linked next (next p) l'
  end.

(** What every schedule keeps true: the linked items are those of the
    producers that returned, each once, and only producers move. *)
Definition push_invariant (producers : list ptr) (s : PushState) (l : list ptr) : Prop :=
  linked (next_of s) (head s) l
  /\ NoDup l
  /\ (forall p, In p l <-> In p producers /\ pc_of s p = Returned)
  /\ (forall p, ~ In p producers -> pc_of s p = Returned).

(** ** Observations on traces and lists *)

Definition is_query_for (cs : string) (e : Event) : bool :=
  match e with
  | NetworkUDPQueryServer cs' => String.eqb cs' cs
  | _ => false
  end.

(** The number of status queries issued for an address. *)
Definition queries_for (cs : string) (evs : list Event) : Z :=
  Z.of_nat (List.length (filter (is_query_for cs) evs)).

(** The addresses of the delayed items deleted after their merge. *)
Definition deleted (evs : list Event) : list ptr :=
  flat_map (fun e => match e with DeleteItem p => [p] | _ => [] end) evs.

Definition clears (p : ptr) (evs : list Event) : bool :=
  existsb (fun e => match e with ClearGRFConfigList q => Nat.eqb q p | _ => false end) evs.

(** The events of [st1] that [st0] did not have yet. *)
Definition events_since (st0 st1 : State) : list Event :=
  skipn (List.length (events st0)) (events st1).

(** The host list was rebuilt. *)
Definition rebuilds_host_list (evs : list Event) : bool :=
  existsb (fun e => match e with NetworkRebuildHostList => true | _ => false end) evs.

(** The number of updates of the game window. *)
Definition window_updates (evs : list Event) : nat :=
  List.length
    (filter (fun e => match e with UpdateNetworkGameWindow => true | _ => false end)
            evs).

(** The game list has an item with this connection string. *)
Definition has_key (cs : string) (l : list Node) : bool :=
  existsb (fun n : Node => String.eqb (connection_string (snd n)) cs) l.

(** An entry with a server name that is online. *)
Definition named_online (item : NetworkGameList) : Prop :=
  online item = true /\ server_name (game_info item) <> EmptyString.

(** What a rebuild decides about a descriptor, apart from the file name and
    the info it may keep from an earlier rebuild. *)
Definition verdict (c : GRFConfig) : Z * list Z * string * GRFStatus * Z :=
  (grfid c, md5sum c, name c, status c, flags c).

Definition is_not_found (c : GRFConfig) : bool :=
  match status c with GCS_NOT_FOUND => true | _ => false end.

(** An item without the file names and infos of its descriptors. *)
Definition item_verdict (item : NetworkGameList) :=
  (connection_string item, online item, manually item, retries item,
   server_name (game_info item), version_compatible (game_info item),
   compatible (game_info item), map verdict (grfconfig (game_info item))).

(** ** Sample data *)

(** A resolution for connection strings that carry their port already. *)
Definition sample_resolve (cs : string) (port : Z) : string := cs.

Definition sample_port : Z := 3979.

(** A catalog with one file, for identifier 5 and checksum [1; 2]. *)
Definition sample_FindGRFConfig (id : Z) (sum : list Z) : option GRFConfig :=
  match id, sum with
  | 5, [1; 2] =>
      Some {| grfid := 5; md5sum := [1; 2]; filename := "five.grf";
              name := "Five"; info := "Five trains"; status := GCS_INITIALISED;
              flags := 0 |}
  | _, _ => None
  end.

Definition sample_FindUnknownGRFName (id : Z) (sum : list Z) (create : bool) : string :=
  "Unknown".

Definition sample_GCF_COPY : Z := 4.

(** A descriptor as a server reports it: identifier, checksum, copy flag. *)
Definition reported (id : Z) (sum : list Z) : GRFConfig :=
  {| grfid := id; md5sum := sum; filename := EmptyString; name := EmptyString; info := EmptyString;
     status := GCS_UNKNOWN; flags := 16 |}.

(** One offline entry for the address a:3979, never queried so far. *)
Definition offline_state : State :=
  {| network_game_list := [(0%nat, new_NetworkGameList "a:3979")];
     network_game_delayed_insertion_list := [];
     requery_cnt := 0; heap_top := 1%nat; events := [] |}.

(** An entry without a server name that is online and has a descriptor, and
    a delayed item for its address that has no server name either. *)
Definition unnamed_online_state : State :=
  {| network_game_list :=
       [(0%nat,
         {| game_info := {| server_name := EmptyString; grfconfig := [reported 5 [1; 2]];
                            version_compatible := true; compatible := true |};
            connection_string := "a:3979"; online := true; manually := false;
            retries := 3 |})];
     network_game_delayed_insertion_list := [(1%nat, new_NetworkGameList "a:3979")];
     requery_cnt := 0; heap_top := 2%nat; events := [] |}.

(** An entry with a server name, and a delayed item for its address that
    carries another name, a descriptor and the manually flag. *)
Definition named_state : State :=
  {| network_game_list :=
       [(0%nat,
         {| game_info := {| server_name := "Alpha"; grfconfig := [reported 7 [3]];
                            version_compatible := true; compatible := false |};
            connection_string := "a:3979"; online := true; manually := false;
            retries := 3 |})];
     network_game_delayed_insertion_list :=
       [(1%nat,
         {| game_info := {| server_name := "Beta"; grfconfig := [reported 5 [1; 2]];
                            version_compatible := true; compatible := true |};
            connection_string := "a:3979"; online := true; manually := true;
            retries := 0 |})];
     requery_cnt := 0; heap_top := 2%nat; events := [] |}.

(** Two items of two producers. *)
Definition item_a : Node := (10%nat, new_NetworkGameList "a:3979").
Definition item_b : Node := (11%nat, new_NetworkGameList "b:3979").

(** The empty game list with [item_a] on the delayed insertion list. *)
Definition one_delayed_state : State :=
  {| network_game_list := []; network_game_delayed_insertion_list := [item_a];
     requery_cnt := 0; heap_top := 0%nat; events := [] |}.

(** Both producers load the empty head; the second wins the exchange; the
    first fails it, seeing the empty head once more, then fails it seeing
    the new head, fails once more for no reason, and then succeeds. *)
Definition racing_schedule : list PushAction :=
  [Run 10%nat; Run 11%nat; Run 11%nat; Stale 10%nat None; Run 10%nat;
   FailWeak 10%nat; Run 10%nat].

(** An entry with one descriptor the sample catalog has and one it lacks. *)
Definition two_descriptors_state : State :=
  {| network_game_list :=
       [(0%nat,
         {| game_info := {| server_name := "Alpha";
                            grfconfig := [reported 5 [1; 2]; reported 6 [9]];
                            version_compatible := true; compatible := true |};
            connection_string := "a:3979"; online := true; manually := false;
            retries := 0 |})];
     network_game_delayed_insertion_list := [];
     requery_cnt := 0; heap_top := 1%nat; events := [] |}.

(** [two_descriptors_state] after the rebuild with the sample catalog. *)
Definition two_descriptors_rescanned : State :=
  {| network_game_list :=
       [(0%nat,
         {| game_info :=
              {| server_name := "Alpha";
                 grfconfig :=
                   [{| grfid := 5; md5sum := [1; 2]; filename := "five.grf";
                       name := "Five"; info := "Five trains";
                       status := GCS_UNKNOWN; flags := 16 |};
                    {| grfid := 6; md5sum := [9]; filename := EmptyString;
                       name := "Unknown"; info := EmptyString;
                       status := GCS_NOT_FOUND; flags := 16 |}];
                 version_compatible := true; compatible := false |};
            connection_string := "a:3979"; online := true; manually := false;
            retries := 0 |})];
     network_game_delayed_insertion_list := [];
     requery_cnt := 0; heap_top := 1%nat;
     events := [InvalidateWindowClassesData] |}.

(** An online entry with a server name and three retries, and an offline
    entry with seven retries. *)
Definition named_two_state : State :=
  {| network_game_list :=
       [(0%nat,
         {| game_info := {| server_name := "Alpha"; grfconfig := [];
                            version_compatible := true; compatible := true |};
            connection_string := "a:3979"; online := true; manually := false;
            retries := 3 |});
        (1%nat, set_retries 7 (new_NetworkGameList "b:3979"))];
     network_game_delayed_insertion_list := [];
     requery_cnt := 0; heap_top := 2%nat; events := [] |}.

(** An item with a server name, for an address of its own. *)
Definition named_item : Node :=
  (12%nat,
   {| game_info := {| server_name := "Gamma"; grfconfig := [];
                      version_compatible := false; compatible := false |};
      connection_string := "c:3979"; online := false; manually := false;
      retries := 0 |}).

(** The last game loop of a window: an entry about to reach 50 retries and
    an entry whose retries are about to wrap. *)
Definition window_end_state : State :=
  {| network_game_list :=
       [(0%nat, set_retries 49 (new_NetworkGameList "a:3979"));
        (1%nat, set_retries 255 (new_NetworkGameList "b:3979"))];
     network_game_delayed_insertion_list := [];
     requery_cnt := 59; heap_top := 2%nat; events := [] |}.

(** A catalog that has the two descriptors of [two_descriptors_state]. *)
Definition sample_full_catalog (id : Z) (sum : list Z) : option GRFConfig :=
  match id, sum with
  | 5, [1; 2] =>
      Some {| grfid := 5; md5sum := [1; 2]; filename := "five.grf";
              name := "Five"; info := "Five trains"; status := GCS_INITIALISED;
              flags := 0 |}
  | 6, [9] =>
      Some {| grfid := 6; md5sum := [9]; filename := "six.grf";
              name := "Six"; info := "Six ships"; status := GCS_INITIALISED;
              flags := 0 |}
  | _, _ => None
  end.

Section GameList.

Set Default Proof Using "Type".

(** [NETWORK_DEFAULT_PORT] of config.h, and
    [ParseConnectionString(s, port).GetAddressAsString(false)]. *)
Variable NETWORK_DEFAULT_PORT : Z.
Variable resolve_connection_string : string -> Z -> string.

(** [FindGRFConfig(grfid, FGCM_EXACT, md5sum)] and
    [FindUnknownGRFName(grfid, md5sum, create)], lookups in the content
    catalog and in the cache of names of unknown NewGRFs, both outside this
    file; [GCF_COPY] is a bit number of newgrf_config.h. *)
Variable FindGRFConfig : Z -> list Z -> option GRFConfig.
Variable FindUnknownGRFName : Z -> list Z -> bool -> string.
Variable GCF_COPY : Z.

(** *** The game list *)

(** The scan of lines 78-81: the position of the first item whose connection
    string is the resolved one. *)
Fixpoint find_item (resolved : string) (l : list Node) : option nat :=
  match l with
  | [] => None
  | (_, item) :: rest =>
      if String.eqb (connection_string item) resolved then Some O
      else option_map S (find_item resolved rest)
  end.

(** The address of the node at a position ([heap_top] past the end). *)
Definition address_at (i : nat) (st : State) : ptr :=
  match nth_error (network_game_list st) i with
  | Some n => fst n
  | None => heap_top st
  end.

(** Lines 70-94 of NetworkGameListAddItem, giving the position in the list
    of the node whose address is returned. *)
Definition add_item (cs : string) (st : State) : nat * State :=
  let resolved := resolve_connection_string cs NETWORK_DEFAULT_PORT in
  match find_item resolved (network_game_list st) with
  | Some i => (i, st)
  | None =>
      (List.length (network_game_list st),
       {| network_game_list :=
            (network_game_list st
               ++ [(heap_top st, new_NetworkGameList resolved)])%list;
          network_game_delayed_insertion_list :=
            network_game_delayed_insertion_list st;
          requery_cnt := requery_cnt st;
          heap_top := S (heap_top st);
          events := (events st ++ [UpdateNetworkGameWindow])%list |})
  end.

(** NetworkGameListAddItem, lines 70-94: the returned pointer and the state. *)
Definition NetworkGameListAddItem (cs : string) (st : State) : ptr * State :=
  let (i, st') := add_item cs st in (address_at i st', st').

(** The walk of lines 103-121: the list without the first node at address
    [remove], when there is one. *)
Fixpoint unlink (remove : ptr) (l : list Node) : option (list Node) :=
  match l with
  | [] => None
  | (p, item) :: rest =>
      if Nat.eqb remove p then Some rest
      else match unlink remove rest with
           | Some rest' => Some ((p, item) :: rest')
           | None => None
           end
  end.

(** NetworkGameListRemoveItem, lines 100-122 (the debug message of line 115
    is left out). *)
Definition NetworkGameListRemoveItem (remove : ptr) (st : State) : State :=
  match unlink remove (network_game_list st) with
  | Some l =>
      emit [ClearGRFConfigList remove; DeleteItem remove;
            NetworkRebuildHostList; UpdateNetworkGameWindow]
           (set_game_list l st)
  | None => st
  end.

(** *** The delayed insertion *)

(** NetworkGameListAddItemDelayed, lines 33-37, as one atomic step: the
    successful compare-exchange that makes [item] the head with the former
    head as its [next]. *)
Definition NetworkGameListAddItemDelayed (item : Node) (st : State) : State :=
  set_delayed (item :: network_game_delayed_insertion_list st) st.

(** Lines 50-55: the reset of an item whose server name is empty. *)
Definition placeholder_of (ins_item item : NetworkGameList) : NetworkGameList :=
  set_online false
    (set_info
       {| server_name := server_name (game_info ins_item);
          grfconfig := grfconfig empty_info;
          version_compatible := version_compatible empty_info;
          compatible := compatible empty_info |} item).

(** Lines 50-56 on the item returned by NetworkGameListAddItem. *)
Definition merge_item (ins_item item : NetworkGameList) : NetworkGameList :=
  let item1 :=
    if String.eqb (server_name (game_info item)) EmptyString
    then placeholder_of ins_item item else item in
  set_manually (manually item1 || manually ins_item) item1.

(** The body of the drain loop after the pop, lines 47-60. *)
Definition merge_delayed (ins_item : Node) (st : State) : State :=
  let (i, st1) := add_item (connection_string (snd ins_item)) st in
  let st2 :=
    match nth_error (network_game_list st1) i with
    | None => st1                                  (* item == nullptr *)
    | Some (p, item) =>
        let item' := merge_item (snd ins_item) item in
        emit ((if String.eqb (server_name (game_info item)) EmptyString
               then [ClearGRFConfigList p] else [])
              ++ (if manually item' then [NetworkRebuildHostList] else [])
              ++ [UpdateNetworkGameWindow])%list
             (set_game_list (update_at i item' (network_game_list st1)) st1)
    end in
  emit [DeleteItem (fst ins_item)] st2.

(** The loop of lines 42-61: pop the head, merge it, until the head is null. *)
Fixpoint delayed_insert_loop (fuel : nat) (st : State) : State :=
  match fuel with
  | O => st
  | S fuel' =>
      match network_game_delayed_insertion_list st with
      | [] => st
      | ins_item :: next =>
          delayed_insert_loop fuel' (merge_delayed ins_item (set_delayed next st))
      end
  end.

(** NetworkGameListHandleDelayedInsert, lines 40-62, run with no push in
    between: one turn of the loop for each queued item. *)
Definition NetworkGameListHandleDelayedInsert (st : State) : State :=
  delayed_insert_loop (List.length (network_game_delayed_insertion_list st)) st.

(** Pushes of other threads, oldest first. *)
Definition push_all (items : list Node) (st : State) : State :=
  fold_left (fun s item => NetworkGameListAddItemDelayed item s) items st.

(** The loop of lines 42-61 with producers running: [arrivals] lists, for
    each turn of the loop, the items pushed between its pop and the load of
    the next turn. *)
Fixpoint delayed_insert_loop_with (fuel : nat) (arrivals : list (list Node))
  (st : State) : State :=
  match fuel with
  | O => st
  | S fuel' =>
      match network_game_delayed_insertion_list st with
      | [] => st
      | ins_item :: next =>
          delayed_insert_loop_with fuel' (tl arrivals)
            (merge_delayed ins_item
               (push_all (hd [] arrivals) (set_delayed next st)))
      end
  end.

Definition HandleDelayedInsert_with (arrivals : list (list Node)) (st : State) : State :=
  delayed_insert_loop_with
    (List.length (network_game_delayed_insertion_list st)
     + List.length (concat arrivals)) arrivals st.

(** The drain in the words of the design: the items taken by the one
    exchange are walked, under the same arrivals. *)
Fixpoint walk_taken (taken : list Node) (arrivals : list (list Node))
  (st : State) : State :=
  match taken with
  | [] => st
  | ins_item :: rest =>
      walk_taken rest (tl arrivals)
        (merge_delayed ins_item (push_all (hd [] arrivals) st))
  end.

(** The drain in the words of the design: one exchange of the head against
    the empty list, then the walk. *)
Definition swap_then_walk_with (arrivals : list (list Node)) (st : State) : State :=
  walk_taken (network_game_delayed_insertion_list st) arrivals (set_delayed [] st).

Definition swap_then_walk (st : State) : State := swap_then_walk_with [] st.

(** *** The requery loop *)

(** The body of the loop of lines 138-146, lines 139-145. *)
Definition requery_item (item : NetworkGameList) : NetworkGameList * list Event :=
  let item1 := set_retries (uint8 (retries item + 1)) item in
  if (retries item1 <? REFRESH_GAMEINFO_X_REQUERIES)
     && (online item1 || (retries item1 >=? MAX_GAME_LIST_REQUERY_COUNT))
  then (item1, [])
  else
    let r := retries item1 in
    (set_retries (if r >=? REFRESH_GAMEINFO_X_REQUERIES then 0 else r) item1,
     [NetworkUDPQueryServer (connection_string item1)]).

Fixpoint requery_loop (l : list Node) : list Node * list Event :=
  match l with
  | [] => ([], [])
  | (p, item) :: rest =>
      let (item', ev) := requery_item item in
      let (rest', evs) := requery_loop rest in
      ((p, item') :: rest', (ev ++ evs)%list)
  end.

(** NetworkGameListRequery, lines 129-147. *)
Definition NetworkGameListRequery (st : State) : State :=
  let st1 := NetworkGameListHandleDelayedInsert st in
  let c := uint8 (requery_cnt st1 + 1) in
  if c <? REQUERY_EVERY_X_GAMELOOPS then set_requery_cnt c st1
  else
    let (l, evs) := requery_loop (network_game_list st1) in
    emit evs (set_game_list l (set_requery_cnt 0 st1)).

(** *** The rebuild after a NewGRF scan *)

(** The body of the loop of lines 159-178 on one descriptor, with the value
    of [item->info.compatible]; [None] is the failed assertion of line 160. *)
Definition rescan_config (c : GRFConfig) (compat : bool) : option (GRFConfig * bool) :=
  if HasBit (flags c) GCF_COPY then
    match FindGRFConfig (grfid c) (md5sum c) with
    | None =>
        Some ({| grfid := grfid c; md5sum := md5sum c; filename := filename c;
                 name := FindUnknownGRFName (grfid c) (md5sum c) true;
                 info := info c; status := GCS_NOT_FOUND; flags := flags c |},
              false)
    | Some f =>
        Some ({| grfid := grfid c; md5sum := md5sum c; filename := filename f;
                 name := name f; info := info f; status := GCS_UNKNOWN;
                 flags := flags c |},
              compat)
    end
  else None.

Fixpoint rescan_configs (l : list GRFConfig) (compat : bool)
  : option (list GRFConfig * bool) :=
  match l with
  | [] => Some ([], compat)
  | c :: rest =>
      match rescan_config c compat with
      | None => None
      | Some (c', compat1) =>
          match rescan_configs rest compat1 with
          | None => None
          | Some (rest', compat2) => Some (c' :: rest', compat2)
          end
      end
  end.

(** The body of the loop of lines 155-179 on one item. *)
Definition rescan_item (item : NetworkGameList) : option NetworkGameList :=
  let i := game_info item in
  match rescan_configs (grfconfig i) (version_compatible i) with
  | None => None
  | Some (l, compat) =>
      Some (set_info {| server_name := server_name i; grfconfig := l;
                        version_compatible := version_compatible i;
                        compatible := compat |} item)
  end.

Fixpoint rescan_items (l : list Node) : option (list Node) :=
  match l with
  | [] => Some []
  | (p, item) :: rest =>
      match rescan_item item with
      | None => None
      | Some item' =>
          match rescan_items rest with
          | None => None
          | Some rest' => Some ((p, item') :: rest')
          end
      end
  end.

(** NetworkAfterNewGRFScan, lines 153-182; [None] when an assertion fails. *)
Definition NetworkAfterNewGRFScan (st : State) : option State :=
  match rescan_items (network_game_list st) with
  | None => None
  | Some l => Some (emit [InvalidateWindowClassesData] (set_game_list l st))
  end.

(** A run of game loops: before each call of NetworkGameListRequery other
    threads push a batch of items (possibly none). *)
Definition run_ticks (batches : list (list Node)) (st : State) : State :=
  fold_left (fun s batch => NetworkGameListRequery (push_all batch s)) batches st.

(** The number of queries an entry that stays offline has received after
    [w] requery windows, counted from zero retries: nine in the first nine
    windows of every fifty, and one in the fiftieth. *)
Definition offline_queries (w : Z) : Z := 10 * (w / 50) + Z.min (w mod 50) 9.

(** The catalog has a file with the identifier and checksum of [c]. *)
Definition catalog_has (c : GRFConfig) : bool :=
  match FindGRFConfig (grfid c) (md5sum c) with
  | Some _ => true
  | None => false
  end.

(** The assertion of line 160 holds for every descriptor of the game list. *)
Definition copies_only (st : State) : bool :=
  forallb (fun n : Node =>
             forallb (fun c => HasBit (flags c) GCF_COPY)
                     (grfconfig (game_info (snd n))))
          (network_game_list st).

(** What lines 162-177 leave in a descriptor [c'] that was [c]. *)
Definition rescanned (c c' : GRFConfig) : Prop :=
  grfid c' = grfid c /\ md5sum c' = md5sum c /\ flags c' = flags c
  /\ match FindGRFConfig (grfid c) (md5sum c) with
     | None =>
         status c' = GCS_NOT_FOUND
         /\ name c' = FindUnknownGRFName (grfid c) (md5sum c) true
         /\ filename c' = filename c /\ info c' = info c
     | Some f =>
         filename c' = filename f /\ name c' = name f /\ info c' = info f
         /\ status c' = GCS_UNKNOWN
     end.

(** The state of the drain of [st] when the items [pre] at the head of its
    delayed insertion list are merged. *)
Definition drained (pre : list Node) (st : State) : State :=
  fold_left (fun s ins => merge_delayed ins s) pre (set_delayed [] st).

(** The items the loop of lines 42-61 pops, in the order of the pops, when
    the delayed insertion list is [queue] and the batches of [arrivals] are
    pushed, one batch in each turn, between the pop and the next load. *)
Fixpoint pop_order (fuel : nat) (arrivals : list (list Node)) (queue : list Node)
  : list Node :=
  match fuel with
  | O => []
  | S fuel' =>
      match queue with
      | [] => []
      | ins_item :: next =>
          ins_item :: pop_order fuel' (tl arrivals) (rev (hd [] arrivals) ++ next)
      end
  end.

Definition drain_order (arrivals : list (list Node)) (st : State) : list Node :=
  pop_order
    (List.length (network_game_delayed_insertion_list st)
     + List.length (concat arrivals))
    arrivals (network_game_delayed_insertion_list st).

(** The address under which a delayed item is entered in the game list. *)
Definition resolved_address (ins : Node) : string :=
  resolve_connection_string (connection_string (snd ins)) NETWORK_DEFAULT_PORT.

(** *** The states the public operations lead to *)

Inductive reachable : State -> Prop :=
| reach_init : reachable initial_state
| reach_add_or_get cs st :
    reachable st -> reachable (snd (NetworkGameListAddItem cs st))
| reach_remove p st :
    reachable st -> reachable (NetworkGameListRemoveItem p st)
| reach_push item st :
    reachable st -> reachable (NetworkGameListAddItemDelayed item st)
| reach_drain st :
    reachable st -> reachable (NetworkGameListHandleDelayedInsert st)
| reach_tick st :
    reachable st -> reachable (NetworkGameListRequery st)
| reach_reconcile st st' :
    reachable st -> NetworkAfterNewGRFScan st = Some st' -> reachable st'.

(** ** Properties *)

(** *** The scan and the add *)

Lemma find_item_None resolved l :
  find_item resolved l = None <-> ~ In resolved (keys l).
Proof.
  induction l as [|[p item] rest IH]; simpl.
  - split; [intros _ [] | reflexivity].
  - destruct (String.eqb_spec (connection_string item) resolved) as [E|E].
    + split; [discriminate | intros H; exfalso; apply H; now left].
    + destruct (find_item resolved rest) as [i|]; simpl.
      * split; [discriminate|]. intros H. exfalso.
        assert (H' : ~ In resolved (keys rest)) by (intros F; apply H; now right).
        apply IH in H'. discriminate.
      * split; [|reflexivity]. intros _ [F|F]; [congruence|].
        now apply (proj1 IH).
Qed.

Lemma find_item_Some resolved l i :
  find_item resolved l = Some i ->
  exists p item,
    nth_error l i = Some (p, item) /\ connection_string item = resolved.
Proof.
  revert i. induction l as [|[p item] rest IH]; simpl; intros i H; [discriminate|].
  destruct (String.eqb_spec (connection_string item) resolved) as [E|E].
  - injection H as <-. exists p, item. now split.
  - destruct (find_item resolved rest) as [j|]; simpl in H; [|discriminate].
    injection H as <-. simpl. now apply IH.
Qed.

Lemma find_item_app_new resolved l p :
  find_item resolved l = None ->
  find_item resolved (l ++ [(p, new_NetworkGameList resolved)])
  = Some (List.length l).
Proof.
  induction l as [|[q item] rest IH]; simpl; intros H.
  - now rewrite String.eqb_refl.
  - destruct (String.eqb (connection_string item) resolved); [discriminate|].
    destruct (find_item resolved rest); simpl in H; [discriminate|].
    now rewrite IH.
Qed.

Lemma find_item_unique resolved l i p item :
  NoDup (keys l) ->
  nth_error l i = Some (p, item) -> connection_string item = resolved ->
  find_item resolved l = Some i.
Proof.
  intros ND Hn Hk. subst resolved.
  revert i ND Hn. induction l as [|[q it] rest IH]; intros i ND Hn.
  - destruct i; discriminate.
  - simpl in ND. inversion ND as [|k ks Hnotin ND']; subst k ks.
    destruct i as [|i]; simpl in *.
    + injection Hn as -> ->. now rewrite String.eqb_refl.
    + destruct (String.eqb_spec (connection_string it) (connection_string item)) as [E|E].
      * exfalso. apply Hnotin. rewrite E.
        apply nth_error_In in Hn.
        apply (in_map (fun n => connection_string (snd n))) in Hn. exact Hn.
      * now rewrite (IH i ND' Hn).
Qed.

Lemma add_item_found cs st i :
  find_item (resolve_connection_string cs NETWORK_DEFAULT_PORT)
            (network_game_list st) = Some i ->
  add_item cs st = (i, st).
Proof. unfold add_item. now intros ->. Qed.

Lemma add_item_keys cs st :
  keys (network_game_list (snd (add_item cs st)))
  = if in_dec string_dec (resolve_connection_string cs NETWORK_DEFAULT_PORT)
                (keys (network_game_list st))
    then keys (network_game_list st)
    else (keys (network_game_list st)
            ++ [resolve_connection_string cs NETWORK_DEFAULT_PORT])%list.
Proof.
  unfold add_item.
  destruct (find_item _ (network_game_list st)) as [i|] eqn:F; simpl.
  - destruct (in_dec _ _ _) as [I|I]; [reflexivity|].
    apply find_item_None in I. congruence.
  - destruct (in_dec _ _ _) as [I|I].
    + apply find_item_None in F. contradiction.
    + unfold keys. now rewrite map_app.
Qed.

Lemma add_item_NoDup cs st :
  NoDup (keys (network_game_list st)) ->
  NoDup (keys (network_game_list (snd (add_item cs st)))).
Proof.
  intros ND. rewrite add_item_keys.
  destruct (in_dec _ _ _) as [I|I]; [assumption|].
  apply NoDup_app; [assumption | repeat constructor; intros [] |].
  intros k Hk [<-|[]]. contradiction.
Qed.

Lemma add_item_position cs st :
  (fst (add_item cs st) < List.length (network_game_list (snd (add_item cs st))))%nat.
Proof.
  unfold add_item.
  destruct (find_item _ (network_game_list st)) as [i|] eqn:F; simpl.
  - apply find_item_Some in F as (p & item & Hn & _).
    apply nth_error_Some. congruence.
  - rewrite length_app. simpl. lia.
Qed.

Lemma address_at_app_new l q d c h e v :
  address_at (List.length l)
    {| network_game_list := (l ++ [(q, v)])%list;
       network_game_delayed_insertion_list := d; requery_cnt := c;
       heap_top := h; events := e |} = q.
Proof.
  unfold address_at. simpl.
  rewrite nth_error_app2 by lia. now rewrite Nat.sub_diag.
Qed.

(** *** The merge of a delayed item *)

Lemma update_at_keys i v l :
  (forall n, nth_error l i = Some n -> connection_string v = connection_string (snd n)) ->
  keys (update_at i v l) = keys l.
Proof.
  revert i. induction l as [|[q it] rest IH]; intros i H; [reflexivity|].
  destruct i as [|i]; simpl.
  - f_equal. exact (H (q, it) eq_refl).
  - f_equal. apply IH. intros n Hn. now apply H.
Qed.

Lemma update_at_length i v l : List.length (update_at i v l) = List.length l.
Proof.
  revert i. induction l as [|[q it] rest IH]; intros [|i]; simpl; congruence.
Qed.

Lemma nth_error_update_at i v l p item :
  nth_error l i = Some (p, item) ->
  nth_error (update_at i v l) i = Some (p, v).
Proof.
  revert i. induction l as [|[q it] rest IH]; intros [|i]; simpl; try discriminate.
  - now intros [= -> ->].
  - apply IH.
Qed.

Lemma nth_error_update_at_other i j v l :
  i <> j -> nth_error (update_at i v l) j = nth_error l j.
Proof.
  revert i j. induction l as [|[q it] rest IH]; intros [|i] [|j] H; simpl;
    try reflexivity; try congruence.
  apply IH. congruence.
Qed.

Lemma merge_item_key ins item :
  connection_string (merge_item ins item) = connection_string item.
Proof.
  unfold merge_item.
  now destruct (String.eqb (server_name (game_info item)) EmptyString).
Qed.

Lemma merge_item_retries ins item :
  retries (merge_item ins item) = retries item.
Proof.
  unfold merge_item.
  now destruct (String.eqb (server_name (game_info item)) EmptyString).
Qed.

Lemma merge_delayed_keys ins st :
  keys (network_game_list (merge_delayed ins st))
  = keys (network_game_list (snd (add_item (connection_string (snd ins)) st))).
Proof.
  unfold merge_delayed.
  destruct (add_item (connection_string (snd ins)) st) as [i st1]; simpl.
  destruct (nth_error (network_game_list st1) i) as [[p item]|] eqn:N; simpl;
    [|reflexivity].
  apply update_at_keys. intros n Hn.
  replace n with (p, item) by (unfold Node in *; congruence).
  apply merge_item_key.
Qed.

(** The cases of a merge: the item is found or appended, and the node at
    the returned position is read. *)
Ltac merge_cases st :=
  unfold merge_delayed, add_item; simpl;
  destruct (find_item _ (network_game_list st)); simpl;
  match goal with
  | |- context [nth_error ?l ?i] => destruct (nth_error l i) as [[? ?]|]
  end;
  reflexivity.

Lemma merge_delayed_queue ins st :
  network_game_delayed_insertion_list (merge_delayed ins st)
  = network_game_delayed_insertion_list st.
Proof. merge_cases st. Qed.

Lemma merge_delayed_requery_cnt ins st :
  requery_cnt (merge_delayed ins st) = requery_cnt st.
Proof. merge_cases st. Qed.

Lemma merge_delayed_set_delayed ins d st :
  merge_delayed ins (set_delayed d st) = set_delayed d (merge_delayed ins st).
Proof. merge_cases st. Qed.

(** The merges of a list of delayed items, first item first. *)
Lemma merges_set_delayed (l : list Node) d st :
  fold_left (fun s ins => merge_delayed ins s) l (set_delayed d st)
  = set_delayed d (fold_left (fun s ins => merge_delayed ins s) l st).
Proof.
  revert st. induction l as [|ins l IH]; intros st; simpl; [reflexivity|].
  now rewrite merge_delayed_set_delayed, IH.
Qed.

Lemma delayed_insert_loop_merges fuel st :
  (List.length (network_game_delayed_insertion_list st) <= fuel)%nat ->
  delayed_insert_loop fuel st
  = fold_left (fun s ins => merge_delayed ins s)
              (network_game_delayed_insertion_list st) (set_delayed [] st).
Proof.
  revert st. induction fuel as [|fuel IH]; intros st H.
  - destruct (network_game_delayed_insertion_list st) eqn:E; simpl in *; [|lia].
    destruct st; simpl in *; now subst.
  - simpl. destruct (network_game_delayed_insertion_list st) as [|ins next] eqn:E.
    + destruct st; simpl in *; now subst.
    + simpl in H. rewrite IH.
      * rewrite merge_delayed_queue. simpl.
        rewrite !merge_delayed_set_delayed. reflexivity.
      * rewrite merge_delayed_queue. simpl. lia.
Qed.

Lemma HandleDelayedInsert_merges st :
  NetworkGameListHandleDelayedInsert st
  = fold_left (fun s ins => merge_delayed ins s)
              (network_game_delayed_insertion_list st) (set_delayed [] st).
Proof. apply delayed_insert_loop_merges. lia. Qed.

Lemma merges_queue (l : list Node) st :
  network_game_delayed_insertion_list
    (fold_left (fun s ins => merge_delayed ins s) l st)
  = network_game_delayed_insertion_list st.
Proof.
  revert st. induction l as [|ins l IH]; intros st; simpl; [reflexivity|].
  now rewrite IH, merge_delayed_queue.
Qed.

Lemma merges_requery_cnt (l : list Node) st :
  requery_cnt (fold_left (fun s ins => merge_delayed ins s) l st) = requery_cnt st.
Proof.
  revert st. induction l as [|ins l IH]; intros st; simpl; [reflexivity|].
  now rewrite IH, merge_delayed_requery_cnt.
Qed.

Lemma merge_delayed_NoDup ins st :
  NoDup (keys (network_game_list st)) ->
  NoDup (keys (network_game_list (merge_delayed ins st))).
Proof. intros H. rewrite merge_delayed_keys. now apply add_item_NoDup. Qed.

Lemma merges_NoDup (l : list Node) st :
  NoDup (keys (network_game_list st)) ->
  NoDup (keys (network_game_list
                 (fold_left (fun s ins => merge_delayed ins s) l st))).
Proof.
  revert st. induction l as [|ins l IH]; intros st H; simpl; [assumption|].
  apply IH. now apply merge_delayed_NoDup.
Qed.

(** *** The drain and the one-exchange design *)

Lemma walk_taken_no_arrivals taken st :
  walk_taken taken [] st = fold_left (fun s ins => merge_delayed ins s) taken st.
Proof.
  revert st. induction taken as [|ins rest IH]; intros st; simpl; [reflexivity|].
  apply IH.
Qed.

Lemma delayed_insert_loop_no_arrivals fuel st :
  delayed_insert_loop_with fuel [] st = delayed_insert_loop fuel st.
Proof.
  revert st. induction fuel as [|fuel IH]; intros st; simpl; [reflexivity|].
  destruct (network_game_delayed_insertion_list st); [reflexivity|].
  apply IH.
Qed.

Lemma push_all_queue items st :
  network_game_delayed_insertion_list (push_all items st)
  = (rev items ++ network_game_delayed_insertion_list st)%list.
Proof.
  unfold push_all. revert st.
  induction items as [|n items IH]; intros st; simpl; [reflexivity|].
  rewrite IH. simpl. now rewrite <- app_assoc.
Qed.

Lemma delayed_insert_loop_with_empties fuel arrivals st :
  (List.length (network_game_delayed_insertion_list st)
   + List.length (concat arrivals) <= fuel)%nat ->
  network_game_delayed_insertion_list (delayed_insert_loop_with fuel arrivals st) = [].
Proof.
  revert arrivals st. induction fuel as [|fuel IH]; intros arrivals st H; simpl.
  - destruct (network_game_delayed_insertion_list st); [reflexivity|simpl in H; lia].
  - destruct (network_game_delayed_insertion_list st) as [|ins next] eqn:E;
      [exact E|].
    apply IH. rewrite merge_delayed_queue, push_all_queue. simpl.
    rewrite length_app, length_rev. simpl in H.
    destruct arrivals as [|a arrivals]; simpl in *; [lia|].
    rewrite length_app in H. lia.
Qed.

(** *** What a merge does to the game list *)

Lemma events_since_emit evs st :
  events_since st (emit evs st) = evs.
Proof.
  unfold events_since. simpl.
  rewrite skipn_app, skipn_all, Nat.sub_diag. reflexivity.
Qed.

Lemma add_item_events cs st :
  events (snd (add_item cs st))
  = (events st
       ++ match find_item (resolve_connection_string cs NETWORK_DEFAULT_PORT)
                          (network_game_list st) with
          | Some _ => []
          | None => [UpdateNetworkGameWindow]
          end)%list.
Proof.
  unfold add_item. destruct (find_item _ _); simpl; [|reflexivity].
  now rewrite app_nil_r.
Qed.

Lemma merge_delayed_unfold ins st :
  exists p item,
    nth_error (network_game_list (snd (add_item (connection_string (snd ins)) st)))
              (fst (add_item (connection_string (snd ins)) st)) = Some (p, item)
    /\ merge_delayed ins st
       = emit [DeleteItem (fst ins)]
           (emit ((if String.eqb (server_name (game_info item)) EmptyString
                   then [ClearGRFConfigList p] else [])
                  ++ (if manually (merge_item (snd ins) item)
                      then [NetworkRebuildHostList] else [])
                  ++ [UpdateNetworkGameWindow])%list
              (set_game_list
                 (update_at (fst (add_item (connection_string (snd ins)) st))
                    (merge_item (snd ins) item)
                    (network_game_list
                       (snd (add_item (connection_string (snd ins)) st))))
                 (snd (add_item (connection_string (snd ins)) st)))).
Proof.
  unfold merge_delayed.
  pose proof (add_item_position (connection_string (snd ins)) st) as L.
  destruct (add_item (connection_string (snd ins)) st) as [i st1]. simpl in *.
  destruct (nth_error (network_game_list st1) i) as [[p item]|] eqn:N.
  - exists p, item. split; reflexivity.
  - apply nth_error_None in N. lia.
Qed.

Lemma drain_split st pre ins post :
  network_game_delayed_insertion_list st = (pre ++ ins :: post)%list ->
  NetworkGameListHandleDelayedInsert st
  = fold_left (fun s i => merge_delayed i s) post
              (merge_delayed ins (drained pre st)).
Proof.
  intros E. rewrite HandleDelayedInsert_merges, E.
  unfold drained. now rewrite fold_left_app.
Qed.

Lemma merge_delayed_events_since ins st p item :
  nth_error (network_game_list (snd (add_item (connection_string (snd ins)) st)))
            (fst (add_item (connection_string (snd ins)) st)) = Some (p, item) ->
  clears p (events_since st (merge_delayed ins st))
  = String.eqb (server_name (game_info item)) EmptyString.
Proof.
  intros N.
  destruct (merge_delayed_unfold ins st) as (p' & item' & N' & ->).
  assert (E : (p', item') = (p, item)) by (unfold Node in *; congruence).
  injection E as -> ->.
  unfold events_since. cbn [events emit set_game_list].
  rewrite add_item_events, <- !app_assoc.
  rewrite skipn_app, skipn_all, Nat.sub_diag. cbn [skipn app].
  unfold clears. rewrite !existsb_app.
  destruct (find_item _ _); destruct (String.eqb (server_name (game_info item)) EmptyString);
    destruct (manually (merge_item (snd ins) item)); simpl;
    rewrite ?Nat.eqb_refl; reflexivity.
Qed.

Lemma merge_delayed_target ins st p item :
  nth_error (network_game_list (snd (add_item (connection_string (snd ins)) st)))
            (fst (add_item (connection_string (snd ins)) st)) = Some (p, item) ->
  network_game_list (merge_delayed ins st)
  = update_at (fst (add_item (connection_string (snd ins)) st))
      (merge_item (snd ins) item)
      (network_game_list (snd (add_item (connection_string (snd ins)) st))).
Proof.
  intros N.
  destruct (merge_delayed_unfold ins st) as (p' & item' & N' & ->).
  assert (E : (p', item') = (p, item)) by (unfold Node in *; congruence).
  now injection E as -> ->.
Qed.

(** C2: for every item the drain pops, the entry that add-or-get returns for
    it is reset exactly when the server name of that entry is empty, whatever
    the name of the popped item: then its dependency list is cleared, its
    info is the empty info with the server name of the popped item, and it is
    offline; when the server name of the entry is not empty, nothing is
    cleared and its info and online flag stay. *)
Theorem merge_resets_entry_without_name
  (st : State) (pre post : list Node) (ins : Node) :
  network_game_delayed_insertion_list st = (pre ++ ins :: post)%list ->
  let before := drained pre st in
  let target := add_item (connection_string (snd ins)) before in
  let after := merge_delayed ins before in
  NetworkGameListHandleDelayedInsert st
  = fold_left (fun s i => merge_delayed i s) post after
  /\ exists p item item',
       nth_error (network_game_list (snd target)) (fst target) = Some (p, item)
       /\ nth_error (network_game_list after) (fst target) = Some (p, item')
       /\ (server_name (game_info item) = EmptyString ->
           clears p (events_since before after) = true
           /\ game_info item'
              = {| server_name := server_name (game_info (snd ins));
                   grfconfig := []; version_compatible := false;
                   compatible := false |}
           /\ online item' = false)
       /\ (server_name (game_info item) <> EmptyString ->
           clears p (events_since before after) = false
           /\ game_info item' = game_info item
           /\ online item' = online item).
Proof.
  intros E before target after.
  split; [now apply drain_split|].
  destruct (merge_delayed_unfold ins before) as (p & item & N & _).
  exists p, item, (merge_item (snd ins) item).
  split; [exact N|]. split.
  - unfold after. rewrite (merge_delayed_target _ _ _ _ N).
    exact (nth_error_update_at _ _ _ _ _ N).
  - unfold after. rewrite (merge_delayed_events_since _ _ _ _ N).
    unfold merge_item.
    destruct (String.eqb_spec (server_name (game_info item)) EmptyString) as [Z|NZ].
    + split; [intros _; repeat split | intros F; contradiction].
    + split; [intros F; contradiction | intros _; repeat split].
Qed.

(** C10: for every item the drain pops, an entry with a server name keeps
    its info, online flag, retries and connection string, and only its
    manually flag is or-ed with the one of the item; an entry without a
    server name becomes the placeholder with the server name of the item;
    the other entries stay; and the game list after the merge is the same
    for any popped item with this connection string, server name and
    manually flag, whatever its dependency list, online flag, compatibility
    flags and retries. *)
Theorem merge_copies_name_and_manually_only
  (st : State) (pre post : list Node) (ins : Node) :
  network_game_delayed_insertion_list st = (pre ++ ins :: post)%list ->
  let before := drained pre st in
  let target := add_item (connection_string (snd ins)) before in
  let after := merge_delayed ins before in
  NetworkGameListHandleDelayedInsert st
  = fold_left (fun s i => merge_delayed i s) post after
  /\ exists p item,
       nth_error (network_game_list (snd target)) (fst target) = Some (p, item)
       /\ (server_name (game_info item) <> EmptyString ->
           nth_error (network_game_list after) (fst target)
           = Some (p, {| game_info := game_info item;
                         connection_string := connection_string item;
                         online := online item;
                         manually := manually item || manually (snd ins);
                         retries := retries item |}))
       /\ (server_name (game_info item) = EmptyString ->
           nth_error (network_game_list after) (fst target)
           = Some (p, {| game_info :=
                           {| server_name := server_name (game_info (snd ins));
                              grfconfig := []; version_compatible := false;
                              compatible := false |};
                         connection_string := connection_string item;
                         online := false;
                         manually := manually item || manually (snd ins);
                         retries := retries item |}))
       /\ (forall j, j <> fst target ->
           nth_error (network_game_list after) j
           = nth_error (network_game_list (snd target)) j)
       /\ (forall ins' : Node,
           connection_string (snd ins') = connection_string (snd ins) ->
           server_name (game_info (snd ins')) = server_name (game_info (snd ins)) ->
           manually (snd ins') = manually (snd ins) ->
           network_game_list (merge_delayed ins' before)
           = network_game_list after).
Proof.
  intros E before target after.
  split; [now apply drain_split|].
  destruct (merge_delayed_unfold ins before) as (p & item & N & _).
  exists p, item. split; [exact N|].
  assert (T : network_game_list after
              = update_at (fst target) (merge_item (snd ins) item)
                  (network_game_list (snd target)))
    by exact (merge_delayed_target _ _ _ _ N).
  repeat split.
  - intros NZ. rewrite T, (nth_error_update_at _ _ _ _ _ N).
    unfold merge_item.
    destruct (String.eqb_spec (server_name (game_info item)) EmptyString); [contradiction|].
    reflexivity.
  - intros Z. rewrite T, (nth_error_update_at _ _ _ _ _ N).
    unfold merge_item. rewrite Z. reflexivity.
  - intros j Hj. rewrite T. apply nth_error_update_at_other. congruence.
  - intros ins' Hc Hs Hm. rewrite T.
    assert (N2 : nth_error
              (network_game_list (snd (add_item (connection_string (snd ins')) before)))
              (fst (add_item (connection_string (snd ins')) before)) = Some (p, item))
      by (rewrite Hc; exact N).
    rewrite (merge_delayed_target _ _ _ _ N2), Hc.
    unfold merge_item, placeholder_of. now rewrite Hs, Hm.
Qed.

(** *** The rebuild after a scan *)

Lemma rescan_config_rescanned c compat c' compat' :
  rescan_config c compat = Some (c', compat') ->
  rescanned c c' /\ compat' = compat && catalog_has c.
Proof.
  clear NETWORK_DEFAULT_PORT.
  unfold rescan_config, rescanned, catalog_has.
  destruct (HasBit (flags c) GCF_COPY); [|discriminate].
  destruct (FindGRFConfig (grfid c) (md5sum c)) as [f|];
    intros [= <- <-]; simpl; rewrite ?andb_true_r, ?andb_false_r; tauto.
Qed.

Lemma rescan_config_total c compat :
  HasBit (flags c) GCF_COPY = true ->
  exists r, rescan_config c compat = Some r.
Proof.
  unfold rescan_config. intros ->.
  destruct (FindGRFConfig (grfid c) (md5sum c)); eexists; reflexivity.
Qed.

Lemma rescan_config_again c compat c' compat' compat2 :
  rescan_config c compat = Some (c', compat') ->
  rescan_config c' compat2 = Some (c', compat2 && catalog_has c).
Proof.
  unfold rescan_config, catalog_has.
  destruct (HasBit (flags c) GCF_COPY) eqn:B; [|discriminate].
  destruct (FindGRFConfig (grfid c) (md5sum c)) as [f|] eqn:F;
    intros [= <- <-]; simpl; rewrite B, F;
    rewrite ?andb_true_r, ?andb_false_r; reflexivity.
Qed.

Lemma rescan_configs_rescanned l compat l' compat' :
  rescan_configs l compat = Some (l', compat') ->
  Forall2 rescanned l l' /\ compat' = compat && forallb catalog_has l.
Proof.
  revert compat l' compat'.
  induction l as [|c rest IH]; simpl; intros compat l' compat' H.
  - injection H as <- <-. now rewrite andb_true_r.
  - destruct (rescan_config c compat) as [[c1 compat1]|] eqn:R; [|discriminate].
    destruct (rescan_configs rest compat1) as [[rest' compat2]|] eqn:RS;
      [|discriminate].
    injection H as <- <-.
    apply rescan_config_rescanned in R as [R ->].
    apply IH in RS as [RS ->].
    split; [now constructor | now rewrite andb_assoc].
Qed.

Lemma rescan_configs_total l compat :
  forallb (fun c => HasBit (flags c) GCF_COPY) l = true ->
  exists r, rescan_configs l compat = Some r.
Proof.
  revert compat. induction l as [|c rest IH]; simpl; intros compat H.
  - eexists; reflexivity.
  - apply andb_true_iff in H as [Hc Hrest].
    destruct (rescan_config_total c compat Hc) as [[c1 compat1] ->].
    destruct (IH compat1 Hrest) as [[rest' compat2] ->].
    eexists; reflexivity.
Qed.

Lemma rescan_configs_again l compat l' compat' compat2 :
  rescan_configs l compat = Some (l', compat') ->
  rescan_configs l' compat2 = Some (l', compat2 && forallb catalog_has l).
Proof.
  revert compat l' compat' compat2.
  induction l as [|c rest IH]; simpl; intros compat l' compat' compat2 H.
  - injection H as <- <-. simpl. now rewrite andb_true_r.
  - destruct (rescan_config c compat) as [[c1 compat1]|] eqn:R; [|discriminate].
    destruct (rescan_configs rest compat1) as [[rest' compat3]|] eqn:RS;
      [|discriminate].
    injection H as <- <-. simpl.
    rewrite (rescan_config_again _ _ _ _ compat2 R).
    rewrite (IH _ _ _ (compat2 && catalog_has c) RS).
    now rewrite andb_assoc.
Qed.

Lemma rescan_item_again item item' :
  rescan_item item = Some item' -> rescan_item item' = Some item'.
Proof.
  unfold rescan_item.
  destruct (rescan_configs _ _) as [[l compat]|] eqn:R; [|discriminate].
  intros [= <-]. cbn [game_info set_info grfconfig version_compatible server_name].
  rewrite (rescan_configs_again _ _ _ _ (version_compatible (game_info item)) R).
  apply rescan_configs_rescanned in R as [_ ->]. reflexivity.
Qed.

Lemma rescan_items_again l l' :
  rescan_items l = Some l' -> rescan_items l' = Some l'.
Proof.
  revert l'. induction l as [|[p item] rest IH]; simpl; intros l' H.
  - now injection H as <-.
  - destruct (rescan_item item) as [item'|] eqn:R; [|discriminate].
    destruct (rescan_items rest) as [rest'|] eqn:RS; [|discriminate].
    injection H as <-. simpl.
    now rewrite (rescan_item_again _ _ R), (IH _ eq_refl).
Qed.

Lemma rescan_items_total l :
  forallb (fun n : Node =>
             forallb (fun c => HasBit (flags c) GCF_COPY)
                     (grfconfig (game_info (snd n)))) l = true ->
  exists l', rescan_items l = Some l'.
Proof.
  induction l as [|[p item] rest IH]; simpl; intros H.
  - eexists; reflexivity.
  - apply andb_true_iff in H as [Hc Hrest].
    unfold rescan_item.
    destruct (rescan_configs_total _ (version_compatible (game_info item)) Hc)
      as [[l c] ->].
    destruct (IH Hrest) as [rest' ->]. eexists; reflexivity.
Qed.

Lemma rescan_items_nth l l' i p item :
  rescan_items l = Some l' ->
  nth_error l i = Some (p, item) ->
  exists item', nth_error l' i = Some (p, item') /\ rescan_item item = Some item'.
Proof.
  revert l' i. induction l as [|[q it] rest IH]; simpl; intros l' i H N.
  - destruct i; discriminate.
  - destruct (rescan_item it) as [it'|] eqn:R; [|discriminate].
    destruct (rescan_items rest) as [rest'|] eqn:RS; [|discriminate].
    injection H as <-. destruct i as [|i]; simpl in *.
    + injection N as -> ->. now exists it'.
    + now apply IH.
Qed.

Lemma rescan_items_length l l' :
  rescan_items l = Some l' -> List.length l' = List.length l.
Proof.
  revert l'. induction l as [|[p item] rest IH]; simpl; intros l' H.
  - now injection H as <-.
  - destruct (rescan_item item); [|discriminate].
    destruct (rescan_items rest) as [rest'|]; [|discriminate].
    injection H as <-. simpl. f_equal. now apply IH.
Qed.

(** C7: the rebuild after a scan returns whenever the assertion of line 160
    holds, with one invalidation of the window class at its end.  In what it
    returns every entry keeps its place, address and other fields; its
    compatible flag is its version_compatible flag when the catalog has
    every descriptor and false otherwise; a descriptor the catalog lacks has
    status not-found and the name of the cache of unknown names; a
    descriptor the catalog has takes the file name, name and info of the
    catalog and has status unknown. *)
Theorem rebuild_after_scan_postcondition (st : State) :
  (copies_only st = true -> exists st', NetworkAfterNewGRFScan st = Some st')
  /\ forall st', NetworkAfterNewGRFScan st = Some st' ->
     events st' = (events st ++ [InvalidateWindowClassesData])%list
     /\ List.length (network_game_list st') = List.length (network_game_list st)
     /\ forall i p item,
          nth_error (network_game_list st) i = Some (p, item) ->
          exists item',
            nth_error (network_game_list st') i = Some (p, item')
            /\ connection_string item' = connection_string item
            /\ online item' = online item
            /\ manually item' = manually item
            /\ retries item' = retries item
            /\ server_name (game_info item') = server_name (game_info item)
            /\ version_compatible (game_info item')
               = version_compatible (game_info item)
            /\ compatible (game_info item')
               = version_compatible (game_info item)
                 && forallb catalog_has (grfconfig (game_info item))
            /\ Forall2 rescanned (grfconfig (game_info item))
                                 (grfconfig (game_info item'))
            /\ (forall c, In c (grfconfig (game_info item)) ->
                catalog_has c = false ->
                compatible (game_info item') = false).
Proof.
  split.
  - intros H. unfold NetworkAfterNewGRFScan.
    destruct (rescan_items_total _ H) as [l ->]. eexists; reflexivity.
  - intros st' H. unfold NetworkAfterNewGRFScan in H.
    destruct (rescan_items (network_game_list st)) as [l|] eqn:R; [|discriminate].
    injection H as <-. cbn [events emit set_game_list network_game_list].
    split; [reflexivity|]. split; [exact (rescan_items_length _ _ R)|].
    intros i p item N.
    destruct (rescan_items_nth _ _ _ _ _ R N) as (item' & N' & RI).
    exists item'. split; [exact N'|].
    unfold rescan_item in RI.
    destruct (rescan_configs _ _) as [[l' compat]|] eqn:RC; [|discriminate].
    injection RI as <-. cbn.
    apply rescan_configs_rescanned in RC as [F ->].
    repeat split; try reflexivity; try exact F.
    intros c Hc Hno.
    apply andb_false_iff. right.
    apply not_true_iff_false. intros A.
    rewrite forallb_forall in A. specialize (A c Hc). congruence.
Qed.

(** C8: a second rebuild after a scan, with the same catalog and the same
    cache of unknown names, returns as the first did and leaves the game
    list, every entry and every descriptor, as the first left it; the first
    returns whenever the assertion of line 160 holds. *)
Theorem rebuild_after_scan_twice (st : State) :
  (copies_only st = true -> exists st1, NetworkAfterNewGRFScan st = Some st1)
  /\ forall st1, NetworkAfterNewGRFScan st = Some st1 ->
     NetworkAfterNewGRFScan st1 = Some (emit [InvalidateWindowClassesData] st1)
     /\ network_game_list (emit [InvalidateWindowClassesData] st1)
        = network_game_list st1.
Proof.
  split.
  - intros H. unfold NetworkAfterNewGRFScan.
    destruct (rescan_items_total _ H) as [l ->]. eexists; reflexivity.
  - intros st1 H. split; [|reflexivity].
    unfold NetworkAfterNewGRFScan in *.
    destruct (rescan_items (network_game_list st)) as [l|] eqn:R; [|discriminate].
    injection H as <-. cbn [network_game_list emit set_game_list].
    rewrite (rescan_items_again _ _ R). reflexivity.
Qed.

(** *** Concurrent pushes *)

Lemma upd_same {A : Type} (f : ptr -> A) p v : upd f p v p = v.
Proof. unfold upd. now rewrite Nat.eqb_refl. Qed.

Lemma upd_other {A : Type} (f : ptr -> A) p v q : q <> p -> upd f p v q = f q.
Proof. unfold upd. intros H. destruct (Nat.eqb_spec q p); [contradiction|reflexivity]. Qed.

Lemma same_pointer_eq a b : same_pointer a b = true -> a = b.
Proof.
  destruct a as [x|], b as [y|]; simpl; try discriminate; [|reflexivity].
  intros H. apply Nat.eqb_eq in H. now subst.
Qed.

Lemma linked_upd next h l p v :
  ~ In p l -> linked next h l -> linked (upd next p v) h l.
Proof.
  revert h. induction l as [|q l IH]; simpl; intros h Hp H; [exact H|].
  destruct H as [-> H]. split; [reflexivity|].
  rewrite upd_other by (intros ->; apply Hp; now left).
  apply IH; [|exact H]. intros F. apply Hp. now right.
Qed.

Lemma push_invariant_not_returned producers s l p :
  push_invariant producers s l -> pc_of s p <> Returned ->
  In p producers /\ ~ In p l.
Proof.
  intros (_ & _ & Hin & Hout) Hpc. split.
  - destruct (in_dec Nat.eq_dec p producers) as [I|I]; [exact I|].
    now apply Hout in I.
  - intros F. apply Hin in F as [_ F]. contradiction.
Qed.

Lemma push_invariant_observe producers s l p seen :
  push_invariant producers s l -> pc_of s p <> Returned ->
  push_invariant producers (observe p seen s) l.
Proof.
  intros I Hpc.
  destruct (push_invariant_not_returned _ _ _ _ I Hpc) as [_ Hnl].
  destruct I as (L & ND & Hin & Hout).
  split; [|split; [|split]]; simpl.
  - now apply linked_upd.
  - exact ND.
  - exact Hin.
  - exact Hout.
Qed.

Lemma push_invariant_load producers s l p seen :
  push_invariant producers s l -> pc_of s p = AtLoad ->
  push_invariant producers (load p seen s) l.
Proof.
  intros I PC.
  assert (Hpc : pc_of s p <> Returned) by congruence.
  destruct (push_invariant_not_returned _ _ _ _ I Hpc) as [Hp Hnl].
  destruct I as (L & ND & Hin & Hout).
  split; [|split; [|split]]; simpl.
  - now apply linked_upd.
  - exact ND.
  - intros q. rewrite Hin. split; intros [Hq Hr]; (split; [exact Hq|]).
    + rewrite upd_other; [exact Hr|]. intros ->. congruence.
    + destruct (Nat.eq_dec q p) as [->|N];
        [rewrite upd_same in Hr; discriminate | now rewrite upd_other in Hr].
  - intros q Hq. rewrite upd_other; [now apply Hout|].
    intros ->. contradiction.
Qed.

Lemma push_invariant_exchange producers s l p :
  push_invariant producers s l -> pc_of s p = AtCompareExchange ->
  head s = next_of s p ->
  push_invariant producers
    {| head := Some p; next_of := next_of s;
       pc_of := upd (pc_of s) p Returned |} (p :: l).
Proof.
  intros I PC CE.
  assert (Hpc : pc_of s p <> Returned) by congruence.
  destruct (push_invariant_not_returned _ _ _ _ I Hpc) as [Hp Hnl].
  destruct I as (L & ND & Hin & Hout).
  split; [|split; [|split]]; simpl.
  - split; [reflexivity|]. now rewrite <- CE.
  - now constructor.
  - intros q. split.
    + intros [<-|H]; [split; [exact Hp | apply upd_same]|].
      apply Hin in H as [Hq Hr]. split; [exact Hq|].
      destruct (Nat.eq_dec q p) as [->|N];
        [apply upd_same | now rewrite upd_other].
    + intros [Hq Hr].
      destruct (Nat.eq_dec p q) as [E|N]; [now left|right].
      rewrite upd_other in Hr by congruence. apply Hin. now split.
  - intros q Hq. rewrite upd_other; [now apply Hout|].
    intros ->. contradiction.
Qed.

Lemma push_step_invariant producers a s l :
  push_invariant producers s l ->
  exists l', push_invariant producers (push_step a s) l'.
Proof.
  intros I. destruct a as [p|p|p seen]; simpl.
  - destruct (pc_of s p) eqn:PC.
    + exists l. now apply push_invariant_load.
    + destruct (same_pointer (head s) (next_of s p)) eqn:CE.
      * exists (p :: l). apply same_pointer_eq in CE.
        now apply push_invariant_exchange.
      * exists l. apply push_invariant_observe; [exact I | congruence].
    + now exists l.
  - destruct (pc_of s p) eqn:PC; try (now exists l).
    exists l. apply push_invariant_observe; [exact I | congruence].
  - destruct (pc_of s p) eqn:PC.
    + exists l. now apply push_invariant_load.
    + exists l. apply push_invariant_observe; [exact I | congruence].
    + now exists l.
Qed.

Lemma run_pushes_invariant producers schedule s l :
  push_invariant producers s l ->
  exists l', push_invariant producers (run_pushes schedule s) l'.
Proof.
  revert s l. induction schedule as [|a schedule IH]; intros s l I; simpl.
  - now exists l.
  - destruct (push_step_invariant producers a s l I) as [l1 I1].
    exact (IH _ _ I1).
Qed.

Lemma existsb_fst_In (items : list Node) p :
  existsb (fun n => Nat.eqb (fst n) p) items = true <-> In p (map fst items).
Proof.
  rewrite existsb_exists, in_map_iff. split.
  - intros (n & Hn & E). apply Nat.eqb_eq in E. now exists n.
  - intros (n & E & Hn). exists n. split; [exact Hn | now apply Nat.eqb_eq].
Qed.

Lemma push_init_invariant items :
  push_invariant (map fst items) (push_init items) [].
Proof.
  repeat split; simpl; try constructor; try contradiction.
  - intros [Hp Hr].
    apply existsb_fst_In in Hp. rewrite Hp in Hr. discriminate.
  - intros p Hp.
    match goal with
    | |- (if ?b then _ else _) = _ => destruct b eqn:E
    end; [|reflexivity].
    apply existsb_fst_In in E. contradiction.
Qed.

Lemma chain_linked next h l fuel :
  linked next h l -> (List.length l <= fuel)%nat -> chain fuel h next = l.
Proof.
  revert h l. induction fuel as [|fuel IH]; intros h [|p l] L Hlen; simpl in *;
    try lia; try reflexivity.
  - now rewrite L.
  - destruct L as [-> L]. f_equal. apply IH; [exact L|lia].
Qed.

Lemma contents_of_items (items : list Node) :
  NoDup (map fst items) ->
  map (fun p => (p, contents_of items p)) (map fst items) = items.
Proof.
  induction items as [|[p x] rest IH]; simpl; intros ND; [reflexivity|].
  inversion ND as [|q qs Hnotin ND']; subst q qs.
  unfold contents_of at 1. simpl. rewrite Nat.eqb_refl. simpl.
  rewrite <- (IH ND') at 2. apply f_equal.
  apply map_ext_in. intros q Hq. apply f_equal.
  unfold contents_of. simpl.
  destruct (Nat.eqb_spec p q) as [->|N]; [contradiction|reflexivity].
Qed.

(** Whatever the schedule, when every producer has returned the delayed
    insertion list holds every pushed item once. *)
Lemma pushed_list_permutation items schedule :
  NoDup (map fst items) ->
  all_returned items (run_pushes schedule (push_init items)) = true ->
  Permutation (pushed_list items (run_pushes schedule (push_init items))) items.
Proof.
  clear NETWORK_DEFAULT_PORT FindUnknownGRFName FindGRFConfig.
  intros ND AR.
  destruct (run_pushes_invariant _ schedule _ _ (push_init_invariant items))
    as (l & L & NDl & Hin & _).
  set (s := run_pushes schedule (push_init items)) in *.
  assert (P : Permutation l (map fst items)).
  { apply NoDup_Permutation; [exact NDl | exact ND|].
    intros p. rewrite Hin. split; [tauto|]. intros Hp. split; [exact Hp|].
    unfold all_returned in AR. rewrite forallb_forall in AR.
    apply in_map_iff in Hp as (n & <- & Hn). specialize (AR n Hn).
    now destruct (pc_of s (fst n)). }
  unfold pushed_list.
  rewrite (chain_linked _ _ l).
  - eapply perm_trans; [apply Permutation_map; exact P|].
    rewrite (contents_of_items items ND). apply Permutation_refl.
  - exact L.
  - rewrite (Permutation_length P). now rewrite length_map.
Qed.

Lemma merge_delayed_deleted ins st :
  deleted (events (merge_delayed ins st)) = (deleted (events st) ++ [fst ins])%list.
Proof.
  destruct (merge_delayed_unfold ins st) as (p & item & _ & ->).
  cbn [events emit set_game_list]. rewrite add_item_events.
  unfold deleted. rewrite !flat_map_app.
  destruct (find_item _ _); destruct (String.eqb _ EmptyString); destruct (manually _);
    simpl; rewrite ?app_nil_r; reflexivity.
Qed.

Lemma merges_deleted (l : list Node) st :
  deleted (events (fold_left (fun s ins => merge_delayed ins s) l st))
  = (deleted (events st) ++ map fst l)%list.
Proof.
  revert st. induction l as [|ins l IH]; intros st; simpl.
  - now rewrite app_nil_r.
  - rewrite IH, merge_delayed_deleted. now rewrite <- app_assoc.
Qed.

(** *** Loops that keep the keys *)

Lemma requery_item_key item :
  connection_string (fst (requery_item item)) = connection_string item.
Proof.
  unfold requery_item.
  now destruct (_ && _).
Qed.

Lemma requery_loop_keys l : keys (fst (requery_loop l)) = keys l.
Proof.
  induction l as [|[p item] rest IH]; simpl; [reflexivity|].
  pose proof (requery_item_key item) as K.
  destruct (requery_item item) as [item' ev].
  destruct (requery_loop rest) as [rest' evs]. simpl in *. congruence.
Qed.

Lemma rescan_item_key item item' :
  rescan_item item = Some item' ->
  connection_string item' = connection_string item.
Proof.
  unfold rescan_item.
  destruct (rescan_configs _ _) as [[l c]|]; [|discriminate].
  now intros [= <-].
Qed.

Lemma rescan_items_keys l l' : rescan_items l = Some l' -> keys l' = keys l.
Proof.
  revert l'. induction l as [|[p item] rest IH]; simpl; intros l' H.
  - now injection H as <-.
  - destruct (rescan_item item) as [item'|] eqn:R; [|discriminate].
    destruct (rescan_items rest) as [rest'|]; [|discriminate].
    injection H as <-. simpl. rewrite (rescan_item_key _ _ R).
    f_equal. now apply IH.
Qed.

Lemma Requery_keys_NoDup st :
  NoDup (keys (network_game_list st)) ->
  NoDup (keys (network_game_list (NetworkGameListRequery st))).
Proof.
  intros H. unfold NetworkGameListRequery.
  rewrite HandleDelayedInsert_merges.
  set (st1 := fold_left _ _ _).
  assert (H1 : NoDup (keys (network_game_list st1))) by now apply merges_NoDup.
  destruct (_ <? _); [exact H1|].
  pose proof (requery_loop_keys (network_game_list st1)) as K.
  destruct (requery_loop (network_game_list st1)) as [l evs]. simpl in *.
  now rewrite K.
Qed.

(** *** The requery cadence *)

Lemma queries_for_app cs x y :
  queries_for cs (x ++ y) = queries_for cs x + queries_for cs y.
Proof.
  unfold queries_for. rewrite filter_app, length_app. lia.
Qed.

(** The cadence in figures: one query per window up to the ninth, none from
    the tenth to the forty-ninth, one in the fiftieth. *)
Lemma offline_queries_cadence w :
  (0 <= w <= 9 -> offline_queries w = w)
  /\ (9 <= w <= 49 -> offline_queries w = 9)
  /\ (w = 50 -> offline_queries w = 10)
  /\ (0 <= w -> offline_queries (w + 50) = offline_queries w + 10).
Proof.
  clear. unfold offline_queries.
  repeat split; intros; Z.div_mod_to_equations; lia.
Qed.

Lemma queries_for_single cs :
  queries_for cs [NetworkUDPQueryServer cs] = 1.
Proof. unfold queries_for. simpl. now rewrite String.eqb_refl. Qed.

Lemma requery_item_online item :
  online (fst (requery_item item)) = online item.
Proof. unfold requery_item. now destruct (_ && _). Qed.

Lemma requery_item_other_key cs item :
  connection_string item <> cs ->
  queries_for cs (snd (requery_item item)) = 0.
Proof.
  intros H. unfold requery_item. destruct (_ && _); [reflexivity|].
  unfold queries_for. simpl.
  destruct (String.eqb_spec (connection_string item) cs); [contradiction|reflexivity].
Qed.

Lemma requery_item_offline item w :
  0 <= w -> online item = false -> retries item = w mod 50 ->
  retries (fst (requery_item item)) = (w + 1) mod 50
  /\ queries_for (connection_string item) (snd (requery_item item))
     = offline_queries (w + 1) - offline_queries w.
Proof.
  clear resolve_connection_string FindUnknownGRFName FindGRFConfig.
  intros Hw Hoff Hr.
  assert (Hrange : 0 <= w mod 50 < 50) by (apply Z.mod_pos_bound; lia).
  unfold requery_item, offline_queries. cbn [retries set_retries online connection_string].
  rewrite Hoff, Hr. unfold uint8.
  rewrite (Z.mod_small (w mod 50 + 1) 256) by lia.
  unfold REFRESH_GAMEINFO_X_REQUERIES, MAX_GAME_LIST_REQUERY_COUNT.
  rewrite !Z.geb_leb. cbn [orb].
  destruct (Z.ltb_spec (w mod 50 + 1) 50) as [L|L];
    destruct (Z.leb_spec 10 (w mod 50 + 1)) as [M|M]; cbn [andb fst snd retries set_retries].
  - change (queries_for (connection_string item) []) with 0.
    split; Z.div_mod_to_equations; lia.
  - destruct (Z.leb_spec 50 (w mod 50 + 1)); [lia|].
    rewrite queries_for_single.
    split; Z.div_mod_to_equations; lia.
  - destruct (Z.leb_spec 50 (w mod 50 + 1)); [|lia].
    rewrite queries_for_single.
    split; Z.div_mod_to_equations; lia.
  - lia.
Qed.

Lemma requery_loop_absent cs l :
  ~ In cs (keys l) -> queries_for cs (snd (requery_loop l)) = 0.
Proof.
  induction l as [|[p item] rest IH]; simpl; intros H; [reflexivity|].
  pose proof (requery_item_other_key cs item) as K.
  destruct (requery_item item) as [item' ev].
  destruct (requery_loop rest) as [rest' evs]. simpl in *.
  rewrite queries_for_app, K, IH; [reflexivity| |]; intros F; apply H; auto.
Qed.

Lemma requery_loop_entry cs l p item :
  NoDup (keys l) -> In (p, item) l -> connection_string item = cs ->
  In (p, fst (requery_item item)) (fst (requery_loop l))
  /\ queries_for cs (snd (requery_loop l)) = queries_for cs (snd (requery_item item)).
Proof.
  intros ND HIn Hk. subst cs.
  induction l as [|[q it] rest IH]; simpl in *; [contradiction|].
  inversion ND as [|k ks Hnotin ND']; subst k ks.
  destruct HIn as [E|HIn].
  - injection E as -> ->.
    pose proof (requery_loop_absent (connection_string item) rest Hnotin) as A.
    destruct (requery_item item) as [item' ev].
    destruct (requery_loop rest) as [rest' evs]. simpl in *.
    split; [now left|]. rewrite queries_for_app, A. lia.
  - assert (N : connection_string it <> connection_string item).
    { intros F. apply Hnotin. rewrite F.
      apply (in_map (fun n : Node => connection_string (snd n))) in HIn. exact HIn. }
    pose proof (requery_item_other_key _ it N) as K.
    destruct (IH ND' HIn) as [I Q].
    destruct (requery_item it) as [it' ev].
    destruct (requery_loop rest) as [rest' evs]. simpl in *.
    split; [now right|]. rewrite queries_for_app, K, Q. lia.
Qed.

Lemma In_update_at (n : Node) i v l :
  In n l ->
  In n (update_at i v l)
  \/ (nth_error l i = Some n /\ In (fst n, v) (update_at i v l)).
Proof.
  revert i. induction l as [|[q it] rest IH]; intros i H; [contradiction|].
  destruct i as [|i]; simpl in *.
  - destruct H as [<-|H]; [right; split; [reflexivity|now left] | left; now right].
  - destruct H as [<-|H]; [left; now left|].
    destruct (IH i H) as [I|[N I]]; [left; now right | right; split; [exact N|now right]].
Qed.

Lemma add_item_keeps cs st n :
  In n (network_game_list st) -> In n (network_game_list (snd (add_item cs st))).
Proof.
  clear FindUnknownGRFName FindGRFConfig.
  unfold add_item. destruct (find_item _ _); simpl; [tauto|].
  intros H. apply in_or_app. now left.
Qed.

Lemma merge_item_stays_offline ins item :
  online item = false -> online (merge_item ins item) = false.
Proof.
  unfold merge_item. intros H.
  now destruct (String.eqb (server_name (game_info item)) EmptyString).
Qed.

(** A merge keeps an offline entry offline, with its retries. *)
Lemma merge_delayed_keeps_offline ins st p item :
  In (p, item) (network_game_list st) -> online item = false ->
  exists item',
    In (p, item') (network_game_list (merge_delayed ins st))
    /\ connection_string item' = connection_string item
    /\ online item' = false
    /\ retries item' = retries item.
Proof.
  intros HIn Hoff.
  destruct (merge_delayed_unfold ins st) as (q & x & N & _).
  rewrite (merge_delayed_target _ _ _ _ N).
  apply (add_item_keeps (connection_string (snd ins))) in HIn.
  destruct (In_update_at _ (fst (add_item (connection_string (snd ins)) st))
              (merge_item (snd ins) x) _ HIn) as [I|[N' I]].
  - exists item. repeat split; assumption.
  - assert (E : (q, x) = (p, item)) by (unfold Node in *; congruence).
    injection E as -> ->. exists (merge_item (snd ins) item).
    split; [exact I|]. split; [apply merge_item_key|].
    split; [now apply merge_item_stays_offline | apply merge_item_retries].
Qed.

Lemma merges_keep_offline (l : list Node) st p item :
  In (p, item) (network_game_list st) -> online item = false ->
  exists item',
    In (p, item') (network_game_list (fold_left (fun s ins => merge_delayed ins s) l st))
    /\ connection_string item' = connection_string item
    /\ online item' = false
    /\ retries item' = retries item.
Proof.
  revert st item. induction l as [|ins l IH]; intros st item HIn Hoff; simpl.
  - exists item. repeat split; assumption.
  - destruct (merge_delayed_keeps_offline ins st p item HIn Hoff)
      as (item1 & I1 & K1 & O1 & R1).
    destruct (IH _ _ I1 O1) as (item2 & I2 & K2 & O2 & R2).
    exists item2. repeat split; congruence.
Qed.

Lemma merge_delayed_queries cs ins st :
  queries_for cs (events (merge_delayed ins st)) = queries_for cs (events st).
Proof.
  destruct (merge_delayed_unfold ins st) as (p & item & _ & ->).
  cbn [events emit set_game_list]. rewrite add_item_events.
  rewrite !queries_for_app.
  destruct (find_item _ _); destruct (String.eqb _ EmptyString); destruct (manually _);
    unfold queries_for; simpl; lia.
Qed.

Lemma merges_queries cs (l : list Node) st :
  queries_for cs (events (fold_left (fun s ins => merge_delayed ins s) l st))
  = queries_for cs (events st).
Proof.
  revert st. induction l as [|ins l IH]; intros st; simpl; [reflexivity|].
  now rewrite IH, merge_delayed_queries.
Qed.

(** One call of NetworkGameListRequery, [c] calls after the last requery
    window and [w] windows after the entry had zero retries. *)
Lemma Requery_step st cs p item w c q0 :
  NoDup (keys (network_game_list st)) ->
  In (p, item) (network_game_list st) -> connection_string item = cs ->
  online item = false -> retries item = w mod 50 ->
  0 <= w -> 0 <= c < 60 -> requery_cnt st = c ->
  queries_for cs (events st) = q0 + offline_queries w ->
  let st' := NetworkGameListRequery st in
  let w' := if c + 1 <? 60 then w else w + 1 in
  NoDup (keys (network_game_list st'))
  /\ requery_cnt st' = (if c + 1 <? 60 then c + 1 else 0)
  /\ queries_for cs (events st') = q0 + offline_queries w'
  /\ exists item',
       In (p, item') (network_game_list st')
       /\ connection_string item' = cs
       /\ online item' = false
       /\ retries item' = w' mod 50.
Proof.
  intros ND HIn Hk Hoff Hr Hw Hc Hcnt Hq st' w'.
  split; [now apply Requery_keys_NoDup|].
  subst st' w'. unfold NetworkGameListRequery.
  rewrite HandleDelayedInsert_merges.
  set (st1 := fold_left _ _ _).
  assert (ND1 : NoDup (keys (network_game_list st1))) by now apply merges_NoDup.
  assert (C1 : requery_cnt st1 = c) by (unfold st1; now rewrite merges_requery_cnt).
  assert (Q1 : queries_for cs (events st1) = q0 + offline_queries w)
    by (unfold st1; now rewrite merges_queries).
  destruct (merges_keep_offline (network_game_delayed_insertion_list st)
              (set_delayed [] st) p item HIn Hoff) as (item1 & I1 & K1 & O1 & R1).
  fold st1 in I1.
  rewrite C1. unfold uint8, REQUERY_EVERY_X_GAMELOOPS.
  rewrite (Z.mod_small (c + 1) 256) by lia.
  destruct (Z.ltb_spec (c + 1) 60) as [L|L].
  - cbn [requery_cnt set_requery_cnt events network_game_list].
    split; [reflexivity|]. split; [exact Q1|].
    exists item1. repeat split; congruence.
  - assert (K1' : connection_string item1 = cs) by congruence.
    destruct (requery_loop_entry cs _ p item1 ND1 I1 K1') as [I2 Q2].
    assert (R1' : retries item1 = w mod 50) by congruence.
    destruct (requery_item_offline item1 w Hw O1 R1') as [R3 Q3].
    rewrite K1' in Q3.
    destruct (requery_loop (network_game_list st1)) as [l evs].
    cbn [requery_cnt set_requery_cnt events network_game_list emit set_game_list fst snd] in *.
    split; [reflexivity|]. split.
    + rewrite queries_for_app, Q1, Q2, Q3. lia.
    + exists (fst (requery_item item1)). split; [exact I2|].
      split; [now rewrite requery_item_key|].
      split; [now rewrite requery_item_online | exact R3].
Qed.

Lemma push_all_game_list items st :
  network_game_list (push_all items st) = network_game_list st
  /\ requery_cnt (push_all items st) = requery_cnt st
  /\ events (push_all items st) = events st.
Proof.
  unfold push_all. revert st.
  induction items as [|n items IH]; intros st; simpl; [auto|].
  destruct (IH (NetworkGameListAddItemDelayed n st)) as (-> & -> & ->). auto.
Qed.

Lemma run_ticks_invariant batches st cs p item w c q0 :
  NoDup (keys (network_game_list st)) ->
  In (p, item) (network_game_list st) -> connection_string item = cs ->
  online item = false -> retries item = w mod 50 ->
  0 <= w -> 0 <= c < 60 -> requery_cnt st = c ->
  queries_for cs (events st) = q0 + offline_queries w ->
  let st' := run_ticks batches st in
  let n := 60 * w + c + Z.of_nat (List.length batches) in
  requery_cnt st' = n mod 60
  /\ queries_for cs (events st') = q0 + offline_queries (n / 60)
  /\ exists item',
       In (p, item') (network_game_list st')
       /\ connection_string item' = cs
       /\ online item' = false
       /\ retries item' = (n / 60) mod 50.
Proof.
  clear FindUnknownGRFName FindGRFConfig.
  revert st item w c.
  induction batches as [|batch batches IH];
    intros st item w c ND HIn Hk Hoff Hr Hw Hc Hcnt Hq; cbn zeta.
  - cbn [run_ticks fold_left List.length Z.of_nat].
    replace ((60 * w + c + 0) / 60) with w by (Z.div_mod_to_equations; lia).
    replace ((60 * w + c + 0) mod 60) with c by (Z.div_mod_to_equations; lia).
    split; [exact Hcnt|]. split; [exact Hq|].
    exists item. repeat split; assumption.
  - cbn [run_ticks fold_left].
    destruct (push_all_game_list batch st) as (G & C & Ev).
    assert (ND0 : NoDup (keys (network_game_list (push_all batch st))))
      by (rewrite G; exact ND).
    assert (HIn0 : In (p, item) (network_game_list (push_all batch st)))
      by (rewrite G; exact HIn).
    assert (Hcnt0 : requery_cnt (push_all batch st) = c) by congruence.
    assert (Hq0 : queries_for cs (events (push_all batch st)) = q0 + offline_queries w)
      by (rewrite Ev; exact Hq).
    destruct (Requery_step _ cs p item w c q0 ND0 HIn0 Hk Hoff Hr Hw Hc Hcnt0 Hq0)
      as (ND1 & C1 & Q1 & item1 & I1 & K1 & O1 & R1).
    set (st1 := NetworkGameListRequery (push_all batch st)) in *.
    assert (Hw1 : 0 <= (if c + 1 <? 60 then w else w + 1))
      by (destruct (c + 1 <? 60); lia).
    assert (Hc1 : 0 <= (if c + 1 <? 60 then c + 1 else 0) < 60)
      by (destruct (Z.ltb_spec (c + 1) 60); lia).
    specialize (IH st1 item1 _ _ ND1 I1 K1 O1 R1 Hw1 Hc1 C1 Q1).
    cbn zeta in IH. unfold run_ticks in IH.
    replace (60 * w + c + Z.of_nat (List.length (batch :: batches)))
      with (60 * (if c + 1 <? 60 then w else w + 1)
            + (if c + 1 <? 60 then c + 1 else 0)
            + Z.of_nat (List.length batches)).
    + exact IH.
    + cbn [List.length]. destruct (Z.ltb_spec (c + 1) 60); lia.
Qed.

(** C1: with 60 game loops per window, a cap of 10 and a refresh after 50
    windows, an entry that has zero retries at the start of a window count
    and stays offline is queried once in each of the first nine windows, not
    in windows ten to forty-nine, and once in the fiftieth window, where
    its retries go back to zero and the cadence starts again; a query is
    issued only in the last game loop of a window.  This holds whatever is
    pushed to the delayed insertion list between the game loops. *)
Theorem requery_cadence
  (st : State) (cs : string) (p : ptr) (item : NetworkGameList)
  (batches : list (list Node)) :
  NoDup (keys (network_game_list st)) ->
  requery_cnt st = 0 ->
  In (p, item) (network_game_list st) -> connection_string item = cs ->
  online item = false -> retries item = 0 ->
  let st' := run_ticks batches st in
  let windows := Z.of_nat (List.length batches) / 60 in
  queries_for cs (events st')
  = queries_for cs (events st) + offline_queries windows
  /\ requery_cnt st' = Z.of_nat (List.length batches) mod 60
  /\ exists item',
       In (p, item') (network_game_list st')
       /\ connection_string item' = cs
       /\ online item' = false
       /\ retries item' = windows mod 50.
Proof.
  intros ND Hcnt HIn Hk Hoff Hr st' windows.
  assert (Hq : queries_for cs (events st)
               = queries_for cs (events st) + offline_queries 0)
    by (change (offline_queries 0) with 0; lia).
  assert (Hr0 : retries item = 0 mod 50) by (rewrite Hr; reflexivity).
  assert (Hc : 0 <= 0 < 60) by lia.
  destruct (run_ticks_invariant batches st cs p item 0 0 _ ND HIn Hk Hoff Hr0
              (Z.le_refl 0) Hc Hcnt Hq) as (C & Q & item' & I & K & O & R).
  cbn zeta in *. rewrite Z.mul_0_r, !Z.add_0_l in *.
  split; [exact Q|]. split; [exact C|].
  exists item'. repeat split; assumption.
Qed.

(** *** The removal *)

Lemma unlink_absent remove l :
  ~ In remove (map fst l) -> unlink remove l = None.
Proof.
  induction l as [|[p item] rest IH]; simpl; intros H; [reflexivity|].
  destruct (Nat.eqb_spec remove p) as [E|E].
  - exfalso. apply H. left. congruence.
  - rewrite IH; [reflexivity|]. intros F. apply H. now right.
Qed.

Lemma unlink_keys remove l l' :
  unlink remove l = Some l' -> NoDup (keys l) -> NoDup (keys l').
Proof.
  revert l'. induction l as [|[p item] rest IH]; simpl; intros l' H ND; [discriminate|].
  inversion ND as [|k ks Hnotin ND']; subst k ks.
  destruct (Nat.eqb remove p).
  - now injection H as <-.
  - destruct (unlink remove rest) as [r|] eqn:U; [|discriminate].
    injection H as <-. simpl. constructor; [|now apply IH].
    intros F. apply Hnotin. clear - U F.
    revert r U F. induction rest as [|[q it] rest IH]; simpl; intros r U F; [discriminate|].
    destruct (Nat.eqb remove q).
    + injection U as <-. now right.
    + destruct (unlink remove rest) as [r'|]; [|discriminate].
      injection U as <-. simpl in F. destruct F as [F|F]; [now left|].
      right. now apply (IH r').
Qed.

(** C5: in every state that a sequence of the public operations (add-or-get,
    remove, push, drain, tick, reconcile) reaches from the empty game list, no
    two entries have the same connection string, and add-or-get on a string
    that resolves to the connection string of an entry returns that entry and
    changes nothing. *)
Theorem registry_keys_unique (st : State) :
  reachable st ->
  NoDup (keys (network_game_list st))
  /\ forall cs p item,
       In (p, item) (network_game_list st) ->
       connection_string item = resolve_connection_string cs NETWORK_DEFAULT_PORT ->
       NetworkGameListAddItem cs st = (p, st).
Proof.
  intros R.
  assert (ND : NoDup (keys (network_game_list st))).
  { induction R as [|cs st R IH|p st R IH|item st R IH|st R IH|st R IH|st st' R IH E].
    - constructor.
    - unfold NetworkGameListAddItem.
      pose proof (add_item_NoDup cs st IH) as H.
      now destruct (add_item cs st).
    - unfold NetworkGameListRemoveItem.
      destruct (unlink p (network_game_list st)) as [l|] eqn:U; [|assumption].
      simpl. exact (unlink_keys _ _ _ U IH).
    - exact IH.
    - rewrite HandleDelayedInsert_merges. now apply merges_NoDup.
    - now apply Requery_keys_NoDup.
    - unfold NetworkAfterNewGRFScan in E.
      destruct (rescan_items (network_game_list st)) as [l|] eqn:S; [|discriminate].
      injection E as <-. simpl. now rewrite (rescan_items_keys _ _ S). }
  split; [exact ND|].
  intros cs p item HIn Hk.
  apply In_nth_error in HIn as [i Hi].
  unfold NetworkGameListAddItem.
  rewrite (add_item_found cs st i (find_item_unique _ _ _ _ _ ND Hi Hk)).
  assert (X : @nth_error Node (network_game_list st) i = Some (p, item))
    by exact Hi.
  unfold address_at. now rewrite X.
Qed.

(** C6: two calls of add-or-get in succession with strings that resolve to
    the same address return the same pointer, and the second call changes
    nothing.  When no entry had the resolved address the first call appends
    one new entry, with empty info, zero retries and not manually added, so
    that the list is longer by one; when an entry had it the list is as it
    was. *)
Theorem add_or_get_twice (A A' : string) (st : State) :
  resolve_connection_string A NETWORK_DEFAULT_PORT
  = resolve_connection_string A' NETWORK_DEFAULT_PORT ->
  let r1 := NetworkGameListAddItem A st in
  let r2 := NetworkGameListAddItem A' (snd r1) in
  fst r2 = fst r1
  /\ snd r2 = snd r1
  /\ (In (resolve_connection_string A NETWORK_DEFAULT_PORT)
         (keys (network_game_list st)) ->
      snd r1 = st)
  /\ (~ In (resolve_connection_string A NETWORK_DEFAULT_PORT)
           (keys (network_game_list st)) ->
      network_game_list (snd r1)
      = (network_game_list st
           ++ [(fst r1,
                new_NetworkGameList
                  (resolve_connection_string A NETWORK_DEFAULT_PORT))])%list
      /\ List.length (network_game_list (snd r2))
         = S (List.length (network_game_list st))).
Proof.
  intros E. unfold NetworkGameListAddItem, add_item. rewrite <- E.
  destruct (find_item _ (network_game_list st)) as [i|] eqn:F; cbn zeta.
  - cbn [fst snd]. rewrite F. cbn [fst snd].
    split; [reflexivity|]. split; [reflexivity|]. split; [reflexivity|].
    intros H. apply find_item_None in H. congruence.
  - cbn [fst snd network_game_list].
    rewrite (find_item_app_new _ _ (heap_top st) F). cbn [fst snd].
    rewrite !address_at_app_new.
    split; [reflexivity|]. split; [reflexivity|]. split.
    + intros H. apply find_item_None in F. contradiction.
    + intros _. split; [reflexivity|].
      cbn [network_game_list]. rewrite length_app. simpl. lia.
Qed.

(** C9: removing an entry that is not (or no longer) in the game list leaves
    the whole state as it is: the entries, their fields and their order, and
    the trace of outgoing calls, so that neither the host list is rebuilt
    nor the window updated. *)
Theorem remove_absent_is_noop (remove : ptr) (st : State) :
  ~ In remove (map fst (network_game_list st)) ->
  NetworkGameListRemoveItem remove st = st.
Proof.
  intros H. unfold NetworkGameListRemoveItem.
  now rewrite (unlink_absent _ _ H).
Qed.

(** ** Further properties of the code *)

(** *** Add-or-get and removal *)

Lemma has_key_In cs l : has_key cs l = true <-> In cs (keys l).
Proof.
  clear. unfold has_key, keys. rewrite existsb_exists, in_map_iff. split.
  - intros (n & Hn & E). apply String.eqb_eq in E. now exists n.
  - intros (n & E & Hn). exists n. split; [exact Hn | now apply String.eqb_eq].
Qed.

Lemma find_item_has_key resolved l :
  has_key resolved l = match find_item resolved l with Some _ => true | None => false end.
Proof.
  clear. destruct (find_item resolved l) as [i|] eqn:F.
  - apply has_key_In.
    destruct (in_dec string_dec resolved (keys l)) as [I|I]; [exact I|].
    apply find_item_None in I. congruence.
  - apply not_true_iff_false. rewrite has_key_In. now apply find_item_None.
Qed.

Lemma add_item_appends cs st :
  network_game_list (snd (NetworkGameListAddItem cs st))
  = (network_game_list st
       ++ if has_key (resolve_connection_string cs NETWORK_DEFAULT_PORT)
                     (network_game_list st)
          then []
          else [(heap_top st,
                 new_NetworkGameList
                   (resolve_connection_string cs NETWORK_DEFAULT_PORT))])%list.
Proof.
  unfold NetworkGameListAddItem, add_item. rewrite find_item_has_key.
  destruct (find_item _ (network_game_list st)); cbn [snd network_game_list];
    [now rewrite app_nil_r | reflexivity].
Qed.

(** X1: add-or-get returns the address of a node of the resulting list whose
    connection string is the resolved one; the nodes that were there stay
    in place and unchanged; one node is appended, and the game window
    updated, exactly when no node had the resolved connection string; the
    delayed insertion list and the requery counter are not touched. *)
Theorem add_or_get_postcondition (cs : string) (st : State) :
  let resolved := resolve_connection_string cs NETWORK_DEFAULT_PORT in
  let r := NetworkGameListAddItem cs st in
  (exists i item,
     nth_error (network_game_list (snd r)) i = Some (fst r, item)
     /\ connection_string item = resolved
     /\ find_item resolved (network_game_list (snd r)) = Some i)
  /\ network_game_list (snd r)
     = (network_game_list st
          ++ if has_key resolved (network_game_list st) then []
             else [(heap_top st, new_NetworkGameList resolved)])%list
  /\ events (snd r)
     = (events st
          ++ if has_key resolved (network_game_list st) then []
             else [UpdateNetworkGameWindow])%list
  /\ network_game_delayed_insertion_list (snd r)
     = network_game_delayed_insertion_list st
  /\ requery_cnt (snd r) = requery_cnt st.
Proof.
  intros resolved r. subst r. unfold NetworkGameListAddItem, add_item.
  fold resolved. rewrite find_item_has_key.
  destruct (find_item resolved (network_game_list st)) as [i|] eqn:F;
    cbn [fst snd network_game_list events network_game_delayed_insertion_list requery_cnt].
  - rewrite !app_nil_r. split; [|repeat split].
    destruct (find_item_Some _ _ _ F) as (p & item & N & K).
    exists i, item. unfold address_at.
    assert (X : @nth_error Node (network_game_list st) i = Some (p, item)) by exact N.
    rewrite X. cbn [fst]. repeat split; assumption.
  - split; [|repeat split].
    exists (List.length (network_game_list st)), (new_NetworkGameList resolved).
    rewrite address_at_app_new.
    split; [|split; [reflexivity | now apply find_item_app_new]].
    rewrite nth_error_app2 by lia. now rewrite Nat.sub_diag.
Qed.

Lemma unlink_at l i p item :
  NoDup (map fst l) -> nth_error l i = Some (p, item) ->
  unlink p l = Some (firstn i l ++ skipn (S i) l)%list.
Proof.
  clear. revert i. induction l as [|[q it] rest IH]; intros i ND N.
  - destruct i; discriminate.
  - simpl in ND. inversion ND as [|a al Hnotin ND']; subst a al.
    destruct i as [|i]; simpl in *.
    + injection N as -> ->. now rewrite Nat.eqb_refl.
    + destruct (Nat.eqb_spec p q) as [->|NE].
      * exfalso. apply Hnotin. apply nth_error_In in N.
        apply (in_map fst) in N. exact N.
      * now rewrite (IH i ND' N).
Qed.

Lemma remove_nth_fresh {A : Type} (l : list A) i a :
  NoDup l -> nth_error l i = Some a ->
  ~ In a (firstn i l ++ skipn (S i) l)
  /\ NoDup (firstn i l ++ skipn (S i) l)
  /\ (forall b, In b (firstn i l ++ skipn (S i) l) -> In b l).
Proof.
  clear. revert i. induction l as [|x l IH]; intros i ND N.
  - destruct i; discriminate.
  - inversion ND as [|b bl Hnotin ND']; subst b bl.
    destruct i as [|i]; simpl in *.
    + injection N as ->. repeat split; auto.
    + destruct (IH i ND' N) as (F & ND2 & Sub).
      split; [|split].
      * intros [E|H]; [|contradiction]. subst x.
        apply Hnotin. eapply nth_error_In. exact N.
      * constructor; [|exact ND2]. intros H. apply Hnotin. now apply Sub.
      * intros b [E|H]; [now left | right; now apply Sub].
Qed.

(** X2: removing an entry of the game list (the addresses of its nodes being
    distinct) unlinks exactly that node and keeps the others in their order,
    clears its descriptors, deletes it, rebuilds the host list and updates
    the window, once each; a second removal does nothing; and, the
    connection strings being distinct, an add-or-get for the address of the
    removed entry appends a new node instead of finding an old one. *)
Theorem remove_present_unlinks
  (st : State) (i : nat) (p : ptr) (item : NetworkGameList) :
  NoDup (map fst (network_game_list st)) ->
  nth_error (network_game_list st) i = Some (p, item) ->
  let st' := NetworkGameListRemoveItem p st in
  network_game_list st'
  = (firstn i (network_game_list st) ++ skipn (S i) (network_game_list st))%list
  /\ events st'
     = (events st ++ [ClearGRFConfigList p; DeleteItem p;
                      NetworkRebuildHostList; UpdateNetworkGameWindow])%list
  /\ network_game_delayed_insertion_list st'
     = network_game_delayed_insertion_list st
  /\ requery_cnt st' = requery_cnt st
  /\ ~ In p (map fst (network_game_list st'))
  /\ NetworkGameListRemoveItem p st' = st'
  /\ (NoDup (keys (network_game_list st)) ->
      forall cs,
        resolve_connection_string cs NETWORK_DEFAULT_PORT = connection_string item ->
        network_game_list (snd (NetworkGameListAddItem cs st'))
        = (network_game_list st'
             ++ [(heap_top st, new_NetworkGameList (connection_string item))])%list).
Proof.
  intros ND N st'.
  assert (U : unlink p (network_game_list st)
              = Some (firstn i (network_game_list st)
                        ++ skipn (S i) (network_game_list st))%list)
    by exact (unlink_at _ _ _ _ ND N).
  assert (G : network_game_list st'
              = (firstn i (network_game_list st)
                   ++ skipn (S i) (network_game_list st))%list).
  { unfold st', NetworkGameListRemoveItem. now rewrite U. }
  assert (Na : nth_error (map fst (network_game_list st)) i = Some p).
  { exact (map_nth_error fst i _ N). }
  destruct (remove_nth_fresh _ _ _ ND Na) as (Fresh0 & _ & _).
  assert (Fresh : ~ In p (map fst (network_game_list st')))
    by (rewrite G, map_app, <- firstn_map, <- skipn_map; exact Fresh0).
  split; [exact G|]. split; [|split; [|split; [|split; [|split]]]].
  - unfold st', NetworkGameListRemoveItem. now rewrite U.
  - unfold st', NetworkGameListRemoveItem. now rewrite U.
  - unfold st', NetworkGameListRemoveItem. now rewrite U.
  - exact Fresh.
  - unfold NetworkGameListRemoveItem. now rewrite (unlink_absent _ _ Fresh).
  - intros NDk cs Hcs.
    assert (Nk : nth_error (keys (network_game_list st)) i
                 = Some (connection_string item)).
    { exact (map_nth_error (fun n : Node => connection_string (snd n)) i _ N). }
    destruct (remove_nth_fresh _ _ _ NDk Nk) as (FreshK0 & _ & _).
    assert (FreshK : ~ In (connection_string item) (keys (network_game_list st')))
      by (unfold keys in *; rewrite G, map_app, <- firstn_map, <- skipn_map;
          exact FreshK0).
    rewrite (add_item_appends cs st'), Hcs.
    replace (has_key (connection_string item) (network_game_list st')) with false.
    + unfold st', NetworkGameListRemoveItem. rewrite U. reflexivity.
    + symmetry. apply not_true_iff_false. rewrite has_key_In. exact FreshK.
Qed.

(** *** The drain *)

Lemma add_item_list cs st :
  network_game_list (snd (add_item cs st))
  = (network_game_list st
       ++ if has_key (resolve_connection_string cs NETWORK_DEFAULT_PORT)
                     (network_game_list st)
          then []
          else [(heap_top st,
                 new_NetworkGameList
                   (resolve_connection_string cs NETWORK_DEFAULT_PORT))])%list.
Proof.
  unfold add_item. rewrite find_item_has_key.
  destruct (find_item _ (network_game_list st)); cbn [snd network_game_list];
    [now rewrite app_nil_r | reflexivity].
Qed.

Lemma update_at_addresses i v l : map fst (update_at i v l) = map fst l.
Proof.
  clear. revert i. induction l as [|[q it] rest IH]; intros [|i]; simpl;
    try reflexivity.
  now rewrite IH.
Qed.

Lemma find_item_same_keys resolved l l' :
  keys l = keys l' -> find_item resolved l = find_item resolved l'.
Proof.
  clear. revert l'. induction l as [|[p item] rest IH]; intros [|[q it] rest'] H;
    simpl in *; try discriminate; [reflexivity|].
  injection H as H1 H2. rewrite H1, (IH rest' H2). reflexivity.
Qed.

Lemma add_item_finds cs st :
  find_item (resolve_connection_string cs NETWORK_DEFAULT_PORT)
            (network_game_list (snd (add_item cs st)))
  = Some (fst (add_item cs st)).
Proof.
  unfold add_item.
  destruct (find_item _ (network_game_list st)) as [i|] eqn:F;
    cbn [fst snd network_game_list]; [exact F | now apply find_item_app_new].
Qed.

Lemma merge_delayed_grows ins st :
  exists added : list Node,
    (List.length added <= 1)%nat
    /\ map fst (network_game_list (merge_delayed ins st))
       = (map fst (network_game_list st) ++ map fst added)%list
    /\ keys (network_game_list (merge_delayed ins st))
       = (keys (network_game_list st) ++ keys added)%list
    /\ (forall k,
          In k (keys (network_game_list (merge_delayed ins st)))
          <-> In k (keys (network_game_list st))
              \/ k = resolve_connection_string (connection_string (snd ins))
                       NETWORK_DEFAULT_PORT).
Proof.
  clear FindUnknownGRFName FindGRFConfig.
  destruct (merge_delayed_unfold ins st) as (p & item & N & _).
  pose proof (merge_delayed_target _ _ _ _ N) as T.
  rewrite merge_delayed_keys. rewrite T, update_at_addresses.
  rewrite add_item_list.
  set (resolved := resolve_connection_string (connection_string (snd ins))
                     NETWORK_DEFAULT_PORT).
  destruct (has_key resolved (network_game_list st)) eqn:H.
  - exists []. rewrite !app_nil_r. simpl.
    split; [lia|]. split; [reflexivity|]. split; [reflexivity|].
    intros k. split; [now left|]. intros [I | ->]; [exact I|].
    now apply has_key_In.
  - exists [(heap_top st, new_NetworkGameList resolved)].
    unfold keys. rewrite !map_app. simpl.
    split; [lia|]. split; [reflexivity|]. split; [reflexivity|].
    intros k. rewrite in_app_iff. simpl. intuition.
Qed.

(** X3: the drain keeps the entries of the game list in their places, with
    their addresses and connection strings, and appends at most one entry
    per delayed item; afterwards the connection strings of the game list
    are the old ones and the resolved addresses of the delayed items, no
    other, and the delayed insertion list is empty. *)
Theorem drain_registers_pending_addresses (st : State) :
  let st' := NetworkGameListHandleDelayedInsert st in
  (exists added : list Node,
     (List.length added <= List.length (network_game_delayed_insertion_list st))%nat
     /\ map fst (network_game_list st')
        = (map fst (network_game_list st) ++ map fst added)%list
     /\ keys (network_game_list st')
        = (keys (network_game_list st) ++ keys added)%list)
  /\ (forall k,
        In k (keys (network_game_list st'))
        <-> In k (keys (network_game_list st))
            \/ In k (map (fun ins : Node =>
                            resolve_connection_string (connection_string (snd ins))
                              NETWORK_DEFAULT_PORT)
                         (network_game_delayed_insertion_list st)))
  /\ network_game_delayed_insertion_list st' = [].
Proof.
  clear FindUnknownGRFName FindGRFConfig.
  intros st'. subst st'. rewrite HandleDelayedInsert_merges.
  rewrite merges_queue. cbn [network_game_delayed_insertion_list set_delayed].
  change (network_game_list st) with (network_game_list (set_delayed [] st)).
  generalize (set_delayed [] st) as s.
  induction (network_game_delayed_insertion_list st) as [|ins l IH]; intros s.
  - simpl. split; [|split; [|reflexivity]].
    + exists []. rewrite !app_nil_r. simpl. auto.
    + intros k. tauto.
  - cbn [fold_left].
    destruct (IH (merge_delayed ins s)) as ((added & L & A & K) & I & _).
    destruct (merge_delayed_grows ins s) as (added0 & L0 & A0 & K0 & I0).
    split; [|split; [|reflexivity]].
    + exists (added0 ++ added)%list. rewrite length_app. cbn [List.length].
      split; [lia|]. unfold keys in *. rewrite !map_app, !app_assoc.
      rewrite A, K, A0, K0. split; reflexivity.
    + intros k. rewrite I, I0. simpl. intuition.
Qed.

Lemma update_at_twice i v w l :
  update_at i w (update_at i v l) = update_at i w l.
Proof.
  clear. revert i. induction l as [|[q it] rest IH]; intros [|i]; simpl;
    try reflexivity.
  now rewrite IH.
Qed.

Lemma merge_item_idempotent ins item :
  merge_item ins (merge_item ins item) = merge_item ins item.
Proof.
  clear. unfold merge_item, placeholder_of, set_manually, set_online, set_info.
  destruct (String.eqb_spec (server_name (game_info item)) EmptyString) as [E|E];
    cbn [game_info server_name manually online connection_string retries].
  - destruct (String.eqb (server_name (game_info ins)) EmptyString);
      cbn [game_info server_name manually online connection_string retries];
      destruct (manually item), (manually ins); reflexivity.
  - destruct (String.eqb_spec (server_name (game_info item)) EmptyString);
      [contradiction|].
    destruct (manually item), (manually ins); reflexivity.
Qed.

(** X4: merging a delayed item a second time changes nothing in the game
    list: the second merge finds the entry of the first and leaves it, and
    every other entry, as it is. *)
Theorem merge_again_keeps_game_list (ins : Node) (st : State) :
  network_game_list (merge_delayed ins (merge_delayed ins st))
  = network_game_list (merge_delayed ins st)
  /\ heap_top (merge_delayed ins (merge_delayed ins st))
     = heap_top (merge_delayed ins st).
Proof.
  destruct (merge_delayed_unfold ins st) as (p & item & N & _).
  pose proof (merge_delayed_target _ _ _ _ N) as T.
  set (cs := connection_string (snd ins)) in *.
  set (st1 := merge_delayed ins st) in *.
  assert (F : find_item (resolve_connection_string cs NETWORK_DEFAULT_PORT)
                        (network_game_list st1)
              = Some (fst (add_item cs st))).
  { rewrite <- (add_item_finds cs st). apply find_item_same_keys.
    unfold st1. apply merge_delayed_keys. }
  pose proof (add_item_found cs st1 _ F) as A.
  assert (N1 : nth_error (network_game_list (snd (add_item cs st1)))
                         (fst (add_item cs st1))
               = Some (p, merge_item (snd ins) item)).
  { rewrite A. cbn [fst snd]. rewrite T.
    exact (nth_error_update_at _ _ _ _ _ N). }
  split.
  - rewrite (merge_delayed_target _ _ _ _ N1).
    fold cs. rewrite A. cbn [fst snd].
    rewrite T, update_at_twice, merge_item_idempotent. reflexivity.
  - destruct (merge_delayed_unfold ins st1) as (p' & item' & _ & ->).
    fold cs. rewrite A. reflexivity.
Qed.

Lemma merge_delayed_trace ins st p item :
  nth_error (network_game_list (snd (add_item (connection_string (snd ins)) st)))
            (fst (add_item (connection_string (snd ins)) st)) = Some (p, item) ->
  events_since st (merge_delayed ins st)
  = ((if has_key (resolve_connection_string (connection_string (snd ins))
                    NETWORK_DEFAULT_PORT) (network_game_list st)
      then [] else [UpdateNetworkGameWindow])
     ++ (if String.eqb (server_name (game_info item)) EmptyString
         then [ClearGRFConfigList p] else [])
     ++ (if manually item || manually (snd ins)
         then [NetworkRebuildHostList] else [])
     ++ [UpdateNetworkGameWindow; DeleteItem (fst ins)])%list.
Proof.
  intros N.
  destruct (merge_delayed_unfold ins st) as (p' & item' & N' & ->).
  assert (E : (p', item') = (p, item)) by (unfold Node in *; congruence).
  injection E as -> ->.
  unfold events_since. cbn [events emit set_game_list].
  rewrite add_item_events, find_item_has_key, <- !app_assoc.
  rewrite skipn_app, skipn_all, Nat.sub_diag. cbn [skipn app].
  assert (M : manually (merge_item (snd ins) item)
              = manually item || manually (snd ins)).
  { unfold merge_item.
    now destruct (String.eqb (server_name (game_info item)) EmptyString). }
  rewrite M.
  destruct (find_item _ _); reflexivity.
Qed.

(** X5: what the drain tells the rest of the program for each item it pops:
    the host list is rebuilt exactly when the entry is manually added after
    the merge (it was before, or the item is), also when the merge changed
    nothing; the game window is updated once, and once more when the entry
    had to be created; the popped item is deleted, once; no query is sent. *)
Theorem merge_notifications (st : State) (pre post : list Node) (ins : Node) :
  network_game_delayed_insertion_list st = (pre ++ ins :: post)%list ->
  let before := drained pre st in
  let target := add_item (connection_string (snd ins)) before in
  let after := merge_delayed ins before in
  NetworkGameListHandleDelayedInsert st
  = fold_left (fun s i => merge_delayed i s) post after
  /\ exists p item,
       nth_error (network_game_list (snd target)) (fst target) = Some (p, item)
       /\ rebuilds_host_list (events_since before after)
          = manually item || manually (snd ins)
       /\ window_updates (events_since before after)
          = (if has_key (resolve_connection_string (connection_string (snd ins))
                           NETWORK_DEFAULT_PORT) (network_game_list before)
             then 1%nat else 2%nat)
       /\ deleted (events_since before after) = [fst ins]
       /\ forall cs, queries_for cs (events_since before after) = 0.
Proof.
  intros E before target after.
  split; [now apply drain_split|].
  destruct (merge_delayed_unfold ins before) as (p & item & N & _).
  exists p, item. split; [exact N|].
  unfold after. rewrite (merge_delayed_trace _ _ _ _ N).
  destruct (has_key _ (network_game_list before));
    destruct (String.eqb (server_name (game_info item)) EmptyString);
    destruct (manually item || manually (snd ins)); repeat split.
Qed.

Lemma merge_delayed_keeps_entry ins st p item :
  In (p, item) (network_game_list st) ->
  exists item',
    In (p, item') (network_game_list (merge_delayed ins st))
    /\ connection_string item' = connection_string item
    /\ retries item' = retries item
    /\ (manually item = true -> manually item' = true)
    /\ (server_name (game_info item) <> EmptyString ->
        game_info item' = game_info item /\ online item' = online item).
Proof.
  intros HIn.
  destruct (merge_delayed_unfold ins st) as (q & x & N & _).
  rewrite (merge_delayed_target _ _ _ _ N).
  apply (add_item_keeps (connection_string (snd ins))) in HIn.
  destruct (In_update_at _ (fst (add_item (connection_string (snd ins)) st))
              (merge_item (snd ins) x) _ HIn) as [I|[N' I]].
  - exists item. repeat split; auto.
  - assert (E : (q, x) = (p, item)) by (unfold Node in *; congruence).
    injection E as -> ->. exists (merge_item (snd ins) item).
    split; [exact I|]. split; [apply merge_item_key|].
    split; [apply merge_item_retries|]. unfold merge_item. split.
    + intros M.
      destruct (String.eqb (server_name (game_info item)) EmptyString);
        cbn [manually set_manually placeholder_of set_online set_info];
        rewrite M; reflexivity.
    + intros NZ.
      destruct (String.eqb_spec (server_name (game_info item)) EmptyString);
        [contradiction|]. split; reflexivity.
Qed.

Lemma merges_keep_entry (l : list Node) st p item :
  In (p, item) (network_game_list st) ->
  exists item',
    In (p, item') (network_game_list (fold_left (fun s ins => merge_delayed ins s) l st))
    /\ connection_string item' = connection_string item
    /\ retries item' = retries item
    /\ (manually item = true -> manually item' = true)
    /\ (server_name (game_info item) <> EmptyString ->
        game_info item' = game_info item /\ online item' = online item).
Proof.
  revert st item. induction l as [|ins l IH]; intros st item HIn; simpl.
  - exists item. repeat split; auto.
  - destruct (merge_delayed_keeps_entry ins st p item HIn)
      as (item1 & I1 & K1 & R1 & M1 & G1).
    destruct (IH _ _ I1) as (item2 & I2 & K2 & R2 & M2 & G2).
    exists item2. split; [exact I2|]. split; [congruence|]. split; [congruence|].
    split; [auto|]. intros NZ. destruct (G1 NZ) as [Gi Go].
    assert (NZ1 : server_name (game_info item1) <> EmptyString) by (now rewrite Gi).
    destruct (G2 NZ1) as [Gi2 Go2]. split; congruence.
Qed.

Lemma push_all_is_set_delayed items st :
  push_all items st
  = set_delayed (rev items ++ network_game_delayed_insertion_list st) st.
Proof.
  clear. unfold push_all. revert st.
  induction items as [|n items IH]; intros st; simpl.
  - destruct st; reflexivity.
  - rewrite IH. unfold NetworkGameListAddItemDelayed, set_delayed. simpl.
    now rewrite <- app_assoc.
Qed.

(** X6: the drain is last in, first out: after pushes it merges the pushed
    items most recent first, and then the items that were queued before.
    So when the address of the most recent item is not in the game list and
    that item has a server name, the entry made for it has that name after
    the drain, whatever the older items say. *)
Theorem drain_is_last_in_first_out (items : list Node) (st : State) :
  NetworkGameListHandleDelayedInsert (push_all items st)
  = fold_left (fun s ins => merge_delayed ins s)
      (rev items ++ network_game_delayed_insertion_list st) (set_delayed [] st)
  /\ forall older last,
       items = (older ++ [last])%list ->
       has_key (resolve_connection_string (connection_string (snd last))
                  NETWORK_DEFAULT_PORT) (network_game_list st) = false ->
       server_name (game_info (snd last)) <> EmptyString ->
       exists p item,
         In (p, item)
            (network_game_list
               (NetworkGameListHandleDelayedInsert (push_all items st)))
         /\ connection_string item
            = resolve_connection_string (connection_string (snd last))
                NETWORK_DEFAULT_PORT
         /\ server_name (game_info item) = server_name (game_info (snd last)).
Proof.
  assert (L : NetworkGameListHandleDelayedInsert (push_all items st)
              = fold_left (fun s ins => merge_delayed ins s)
                  (rev items ++ network_game_delayed_insertion_list st)
                  (set_delayed [] st)).
  { rewrite HandleDelayedInsert_merges, push_all_is_set_delayed. reflexivity. }
  split; [exact L|].
  intros older last E Absent Named. rewrite L, E, rev_app_distr. simpl.
  set (s0 := set_delayed [] st).
  destruct (merge_delayed_unfold last s0) as (p & x & N & _).
  pose proof (merge_delayed_target _ _ _ _ N) as T.
  assert (X : x = new_NetworkGameList
                    (resolve_connection_string (connection_string (snd last))
                       NETWORK_DEFAULT_PORT)).
  { revert N. unfold add_item. cbn [network_game_list s0 set_delayed].
    pose proof (find_item_has_key
                  (resolve_connection_string (connection_string (snd last))
                     NETWORK_DEFAULT_PORT) (network_game_list st)) as H.
    rewrite Absent in H.
    destruct (find_item _ (network_game_list st)); [discriminate|].
    cbn [fst snd network_game_list].
    rewrite nth_error_app2 by lia. rewrite Nat.sub_diag. simpl.
    now intros [= _ <-]. }
  assert (I : In (p, merge_item (snd last) x)
                 (network_game_list (merge_delayed last s0))).
  { rewrite T. eapply nth_error_In. exact (nth_error_update_at _ _ _ _ _ N). }
  assert (NameSet : server_name (game_info (merge_item (snd last) x))
                    = server_name (game_info (snd last)))
    by (rewrite X; reflexivity).
  destruct (merges_keep_entry (rev older ++ network_game_delayed_insertion_list st)
              _ _ _ I) as (item' & I' & K' & _ & _ & G').
  exists p, item'. split; [exact I'|]. split.
  - rewrite K', merge_item_key, X. reflexivity.
  - destruct G' as [Gi _]; [now rewrite NameSet|]. now rewrite Gi.
Qed.

(** *** The game loop *)

Lemma requery_item_frame item :
  exists r, fst (requery_item item) = set_retries r item /\ 0 <= r < 50.
Proof.
  clear. unfold requery_item.
  cbn [retries set_retries online connection_string].
  unfold uint8, REFRESH_GAMEINFO_X_REQUERIES, MAX_GAME_LIST_REQUERY_COUNT.
  assert (B : 0 <= (retries item + 1) mod 256 < 256)
    by (apply Z.mod_pos_bound; lia).
  set (r1 := (retries item + 1) mod 256) in *.
  rewrite !Z.geb_leb.
  destruct (Z.ltb_spec r1 50) as [L|L]; cbn [andb].
  - destruct (online item || (10 <=? r1)); cbn [fst].
    + exists r1. split; [reflexivity | lia].
    + destruct (Z.leb_spec 50 r1); [lia|]. exists r1. split; [reflexivity | lia].
  - destruct (Z.leb_spec 50 r1); [|lia]. exists 0. split; [reflexivity | lia].
Qed.

Lemma requery_loop_In l p item :
  In (p, item) l -> In (p, fst (requery_item item)) (fst (requery_loop l)).
Proof.
  clear. induction l as [|[q it] rest IH]; simpl; [tauto|].
  intros [E|H].
  - injection E as -> ->.
    destruct (requery_item item), (requery_loop rest). now left.
  - specialize (IH H).
    destruct (requery_item it), (requery_loop rest). now right.
Qed.

Lemma requery_loop_from l n :
  In n (fst (requery_loop l)) ->
  exists item, In (fst n, item) l /\ snd n = fst (requery_item item).
Proof.
  clear. revert n. induction l as [|[q it] rest IH]; intros n; simpl; [tauto|].
  destruct (requery_item it) as [it' ev] eqn:R.
  destruct (requery_loop rest) as [rest' evs]. simpl.
  intros [E|H].
  - subst n. exists it. split; [now left | now rewrite R].
  - destruct (IH n H) as (item & I & E). exists item. split; [now right | exact E].
Qed.

(** X7: a game loop never removes an entry and never changes its address
    or its connection string; it never clears a manually flag; and it
    leaves the info and the online flag of an entry with a server name as
    they are. *)
Theorem game_loop_keeps_entries (st : State) (p : ptr) (item : NetworkGameList) :
  In (p, item) (network_game_list st) ->
  exists item',
    In (p, item') (network_game_list (NetworkGameListRequery st))
    /\ connection_string item' = connection_string item
    /\ (manually item = true -> manually item' = true)
    /\ (server_name (game_info item) <> EmptyString ->
        game_info item' = game_info item /\ online item' = online item).
Proof.
  intros HIn. unfold NetworkGameListRequery.
  rewrite HandleDelayedInsert_merges.
  destruct (merges_keep_entry (network_game_delayed_insertion_list st)
              (set_delayed [] st) p item HIn) as (item1 & I1 & K1 & _ & M1 & G1).
  set (st1 := fold_left _ _ _) in *.
  destruct (_ <? _).
  - exists item1. cbn [network_game_list set_requery_cnt]. auto.
  - pose proof (requery_loop_In _ _ _ I1) as I2.
    destruct (requery_item_frame item1) as (r & E & _).
    destruct (requery_loop (network_game_list st1)) as [l evs].
    cbn [network_game_list emit set_game_list fst] in *.
    exists (fst (requery_item item1)). rewrite E in *.
    split; [exact I2|]. cbn [connection_string manually game_info online set_retries].
    auto.
Qed.

Lemma queries_for_nonneg cs evs : 0 <= queries_for cs evs.
Proof. clear. unfold queries_for. lia. Qed.

Lemma requery_item_at_most_one cs item :
  0 <= queries_for cs (snd (requery_item item)) <= 1.
Proof.
  clear. unfold requery_item. destruct (_ && _); cbn [snd].
  - change (queries_for cs []) with 0. lia.
  - unfold queries_for. cbn [filter is_query_for connection_string set_retries].
    destruct (String.eqb (connection_string item) cs); simpl; lia.
Qed.

Lemma requery_loop_at_most_one cs l :
  NoDup (keys l) -> 0 <= queries_for cs (snd (requery_loop l)) <= 1.
Proof.
  intros ND.
  destruct (in_dec string_dec cs (keys l)) as [I|I].
  - unfold keys in I. apply in_map_iff in I as ([p item] & K & HIn).
    destruct (requery_loop_entry cs l p item ND HIn K) as [_ ->].
    apply requery_item_at_most_one.
  - rewrite (requery_loop_absent cs l I). lia.
Qed.

(** X9: in one game loop at most one query is sent for an address, the
    connection strings of the game list being distinct, and none for an
    address that is not in the game list after the loop. *)
Theorem game_loop_queries (st : State) (cs : string) :
  NoDup (keys (network_game_list st)) ->
  let st' := NetworkGameListRequery st in
  queries_for cs (events st) <= queries_for cs (events st')
                             <= queries_for cs (events st) + 1
  /\ (has_key cs (network_game_list st') = false ->
      queries_for cs (events st') = queries_for cs (events st)).
Proof.
  intros ND st'. subst st'. unfold NetworkGameListRequery.
  rewrite HandleDelayedInsert_merges.
  set (st1 := fold_left _ _ _).
  assert (ND1 : NoDup (keys (network_game_list st1))) by now apply merges_NoDup.
  assert (Q1 : queries_for cs (events st1) = queries_for cs (events st))
    by (unfold st1; now rewrite merges_queries).
  destruct (_ <? _).
  - cbn [events set_requery_cnt]. rewrite Q1. split; [lia | reflexivity].
  - pose proof (requery_loop_at_most_one cs _ ND1) as B.
    pose proof (requery_loop_absent cs (network_game_list st1)) as A.
    pose proof (requery_loop_keys (network_game_list st1)) as K.
    destruct (requery_loop (network_game_list st1)) as [l evs].
    cbn [events emit set_game_list set_requery_cnt network_game_list fst snd] in *.
    rewrite queries_for_app, Q1. split; [lia|].
    intros H. rewrite A; [lia|].
    rewrite <- K. rewrite <- has_key_In. now rewrite H.
Qed.

(** *** The two cadences of the requery *)

Lemma requery_item_any item w :
  0 <= w -> retries item = w mod 50 ->
  retries (fst (requery_item item)) = (w + 1) mod 50
  /\ (w + 1) / 50 - w / 50
     <= queries_for (connection_string item) (snd (requery_item item)) <= 1
  /\ (online item = true ->
      queries_for (connection_string item) (snd (requery_item item))
      = (w + 1) / 50 - w / 50).
Proof.
  clear. intros Hw Hr.
  assert (Hrange : 0 <= w mod 50 < 50) by (apply Z.mod_pos_bound; lia).
  unfold requery_item. cbn [retries set_retries online connection_string].
  rewrite Hr. unfold uint8.
  rewrite (Z.mod_small (w mod 50 + 1) 256) by lia.
  unfold REFRESH_GAMEINFO_X_REQUERIES, MAX_GAME_LIST_REQUERY_COUNT.
  rewrite !Z.geb_leb.
  destruct (Z.ltb_spec (w mod 50 + 1) 50) as [L|L]; cbn [andb].
  - destruct (online item) eqn:O; cbn [orb].
    + cbn [fst snd retries set_retries].
      change (queries_for (connection_string item) []) with 0.
      split; [|split; [|intros _]]; Z.div_mod_to_equations; lia.
    + destruct (Z.leb_spec 10 (w mod 50 + 1)) as [M|M];
        cbn [fst snd retries set_retries].
      * change (queries_for (connection_string item) []) with 0.
        split; [|split; [|discriminate]]; Z.div_mod_to_equations; lia.
      * destruct (Z.leb_spec 50 (w mod 50 + 1)); [lia|].
        rewrite queries_for_single.
        split; [|split; [|discriminate]]; Z.div_mod_to_equations; lia.
  - cbn [fst snd retries set_retries].
    destruct (Z.leb_spec 50 (w mod 50 + 1)); [|lia].
    rewrite queries_for_single.
    split; [|split; [|intros _]]; Z.div_mod_to_equations; lia.
Qed.

Lemma Requery_step_entry st cs p item w c :
  NoDup (keys (network_game_list st)) ->
  In (p, item) (network_game_list st) -> connection_string item = cs ->
  retries item = w mod 50 -> 0 <= w -> 0 <= c < 60 -> requery_cnt st = c ->
  let st' := NetworkGameListRequery st in
  let w' := if c + 1 <? 60 then w else w + 1 in
  NoDup (keys (network_game_list st'))
  /\ requery_cnt st' = (if c + 1 <? 60 then c + 1 else 0)
  /\ exists item',
       In (p, item') (network_game_list st')
       /\ connection_string item' = cs
       /\ retries item' = w' mod 50
       /\ queries_for cs (events st) + (w' / 50 - w / 50)
          <= queries_for cs (events st')
          <= queries_for cs (events st) + (w' - w)
       /\ (named_online item ->
           named_online item'
           /\ queries_for cs (events st')
              = queries_for cs (events st) + (w' / 50 - w / 50)).
Proof.
  intros ND HIn Hk Hr Hw Hc Hcnt st' w'.
  split; [now apply Requery_keys_NoDup|].
  subst st' w'. unfold NetworkGameListRequery.
  rewrite HandleDelayedInsert_merges.
  set (st1 := fold_left _ _ _).
  assert (ND1 : NoDup (keys (network_game_list st1))) by now apply merges_NoDup.
  assert (C1 : requery_cnt st1 = c) by (unfold st1; now rewrite merges_requery_cnt).
  assert (Q1 : queries_for cs (events st1) = queries_for cs (events st))
    by (unfold st1; now rewrite merges_queries).
  destruct (merges_keep_entry (network_game_delayed_insertion_list st)
              (set_delayed [] st) p item HIn) as (item1 & I1 & K1 & R1 & _ & G1).
  fold st1 in I1.
  assert (NO1 : named_online item -> named_online item1).
  { intros [O NZ]. destruct (G1 NZ) as [Gi Go]. split; congruence. }
  rewrite C1. unfold uint8, REQUERY_EVERY_X_GAMELOOPS.
  rewrite (Z.mod_small (c + 1) 256) by lia.
  destruct (Z.ltb_spec (c + 1) 60) as [L|L].
  - cbn [requery_cnt set_requery_cnt events network_game_list].
    split; [reflexivity|]. exists item1.
    split; [exact I1|]. split; [congruence|]. split; [congruence|].
    rewrite Q1. split; [lia|]. intros H. split; [auto | lia].
  - assert (K1' : connection_string item1 = cs) by congruence.
    destruct (requery_loop_entry cs _ p item1 ND1 I1 K1') as [I2 Q2].
    assert (R1' : retries item1 = w mod 50) by congruence.
    destruct (requery_item_any item1 w Hw R1') as (R3 & Q3 & Q4).
    rewrite K1' in Q3, Q4.
    destruct (requery_item_frame item1) as (r & E & _).
    destruct (requery_loop (network_game_list st1)) as [l evs].
    cbn [requery_cnt set_requery_cnt events network_game_list emit
         set_game_list fst snd] in *.
    split; [reflexivity|]. exists (fst (requery_item item1)).
    split; [exact I2|]. split; [now rewrite requery_item_key|].
    split; [exact R3|]. rewrite queries_for_app, Q1, Q2.
    split; [lia|]. intros H. destruct (NO1 H) as [O1 NZ1]. split.
    + rewrite E. split; [exact O1 | exact NZ1].
    + rewrite (Q4 O1). lia.
Qed.

Lemma run_ticks_entry batches st cs p item w c :
  NoDup (keys (network_game_list st)) ->
  In (p, item) (network_game_list st) -> connection_string item = cs ->
  retries item = w mod 50 -> 0 <= w -> 0 <= c < 60 -> requery_cnt st = c ->
  let st' := run_ticks batches st in
  let w' := (60 * w + c + Z.of_nat (List.length batches)) / 60 in
  exists item',
    In (p, item') (network_game_list st')
    /\ connection_string item' = cs
    /\ retries item' = w' mod 50
    /\ queries_for cs (events st) + (w' / 50 - w / 50)
       <= queries_for cs (events st')
       <= queries_for cs (events st) + (w' - w)
    /\ (named_online item ->
        named_online item'
        /\ queries_for cs (events st')
           = queries_for cs (events st) + (w' / 50 - w / 50)).
Proof.
  clear FindUnknownGRFName FindGRFConfig.
  revert st item w c.
  induction batches as [|batch batches IH];
    intros st item w c ND HIn Hk Hr Hw Hc Hcnt; cbn zeta.
  - cbn [run_ticks fold_left List.length Z.of_nat].
    replace ((60 * w + c + 0) / 60) with w by (Z.div_mod_to_equations; lia).
    exists item. split; [exact HIn|]. split; [exact Hk|]. split; [exact Hr|].
    split; [lia|]. intros H. split; [exact H | lia].
  - cbn [run_ticks fold_left].
    destruct (push_all_game_list batch st) as (G & C & Ev).
    assert (ND0 : NoDup (keys (network_game_list (push_all batch st))))
      by (rewrite G; exact ND).
    assert (HIn0 : In (p, item) (network_game_list (push_all batch st)))
      by (rewrite G; exact HIn).
    assert (Hcnt0 : requery_cnt (push_all batch st) = c) by congruence.
    destruct (Requery_step_entry _ cs p item w c ND0 HIn0 Hk Hr Hw Hc Hcnt0)
      as (ND1 & C1 & item1 & I1 & K1 & R1 & Q1 & N1).
    rewrite Ev in Q1, N1.
    set (st1 := NetworkGameListRequery (push_all batch st)) in *.
    set (w1 := if c + 1 <? 60 then w else w + 1) in *.
    set (c1 := if c + 1 <? 60 then c + 1 else 0) in *.
    assert (Hw1 : 0 <= w1) by (unfold w1; destruct (c + 1 <? 60); lia).
    assert (Hc1 : 0 <= c1 < 60)
      by (unfold c1; destruct (Z.ltb_spec (c + 1) 60); lia).
    destruct (IH st1 item1 w1 c1 ND1 I1 K1 R1 Hw1 Hc1 C1)
      as (item2 & I2 & K2 & R2 & Q2 & N2).
    fold (run_ticks batches st1) in *.
    assert (E : 60 * w1 + c1 + Z.of_nat (List.length batches)
                = 60 * w + c + Z.of_nat (List.length (batch :: batches))).
    { cbn [List.length]. unfold w1, c1. destruct (Z.ltb_spec (c + 1) 60); lia. }
    rewrite E in *.
    set (w2 := (60 * w + c + Z.of_nat (List.length (batch :: batches))) / 60) in *.
    exists item2. split; [exact I2|]. split; [exact K2|]. split; [exact R2|].
    split; [lia|]. intros H. destruct (N1 H) as [H1 Q1']. destruct (N2 H1) as [H2 Q2'].
    split; [exact H2 | lia].
Qed.

(** X10: the full refresh reaches every entry.  Whatever its online flag
    and whatever is pushed between the game loops, an entry with [r]
    retries (below 50) at the start of a window count has [(r + w) mod 50]
    retries after [w] windows, has been queried at least once for each
    time its retries reached 50, which is [(r + w) / 50] times, and at most
    once per window. *)
Theorem every_entry_is_refreshed
  (st : State) (cs : string) (p : ptr) (item : NetworkGameList)
  (batches : list (list Node)) :
  NoDup (keys (network_game_list st)) ->
  requery_cnt st = 0 ->
  In (p, item) (network_game_list st) -> connection_string item = cs ->
  0 <= retries item < 50 ->
  let st' := run_ticks batches st in
  let windows := Z.of_nat (List.length batches) / 60 in
  exists item',
    In (p, item') (network_game_list st')
    /\ connection_string item' = cs
    /\ retries item' = (retries item + windows) mod 50
    /\ queries_for cs (events st) + (retries item + windows) / 50
       <= queries_for cs (events st')
       <= queries_for cs (events st) + windows.
Proof.
  clear FindUnknownGRFName FindGRFConfig.
  intros ND Hcnt HIn Hk Hr st' windows.
  assert (Hr0 : retries item = retries item mod 50)
    by (symmetry; apply Z.mod_small; exact Hr).
  assert (Hw : 0 <= retries item) by lia.
  assert (Hc : 0 <= 0 < 60) by lia.
  destruct (run_ticks_entry batches st cs p item (retries item) 0
              ND HIn Hk Hr0 Hw Hc Hcnt) as (item' & I & K & R & Q & _).
  subst st'. cbn zeta in *.
  assert (E : (60 * retries item + 0 + Z.of_nat (List.length batches)) / 60
              = retries item + windows)
    by (unfold windows; Z.div_mod_to_equations; lia).
  rewrite E in *.
  assert (Z0 : retries item / 50 = 0) by (apply Z.div_small; exact Hr).
  exists item'. split; [exact I|]. split; [exact K|]. split; [exact R|]. lia.
Qed.

(** X11: an entry that is online and has a server name is left alone by
    the short retries: whatever is pushed between the game loops it stays
    online with its name, and it is queried only when its retries reach 50,
    that is [(r + w) / 50] times in [w] windows, once in fifty windows. *)
Theorem online_entry_is_queried_once_in_fifty_windows
  (st : State) (cs : string) (p : ptr) (item : NetworkGameList)
  (batches : list (list Node)) :
  NoDup (keys (network_game_list st)) ->
  requery_cnt st = 0 ->
  In (p, item) (network_game_list st) -> connection_string item = cs ->
  0 <= retries item < 50 ->
  named_online item ->
  let st' := run_ticks batches st in
  let windows := Z.of_nat (List.length batches) / 60 in
  exists item',
    In (p, item') (network_game_list st')
    /\ connection_string item' = cs
    /\ named_online item'
    /\ retries item' = (retries item + windows) mod 50
    /\ queries_for cs (events st')
       = queries_for cs (events st) + (retries item + windows) / 50.
Proof.
  clear FindUnknownGRFName FindGRFConfig.
  intros ND Hcnt HIn Hk Hr Hno st' windows.
  assert (Hr0 : retries item = retries item mod 50)
    by (symmetry; apply Z.mod_small; exact Hr).
  assert (Hw : 0 <= retries item) by lia.
  assert (Hc : 0 <= 0 < 60) by lia.
  destruct (run_ticks_entry batches st cs p item (retries item) 0
              ND HIn Hk Hr0 Hw Hc Hcnt) as (item' & I & K & R & _ & N).
  subst st'. cbn zeta in *.
  assert (E : (60 * retries item + 0 + Z.of_nat (List.length batches)) / 60
              = retries item + windows)
    by (unfold windows; Z.div_mod_to_equations; lia).
  rewrite E in *.
  assert (Z0 : retries item / 50 = 0) by (apply Z.div_small; exact Hr).
  destruct (N Hno) as [H Q].
  exists item'. split; [exact I|]. split; [exact K|]. split; [exact H|].
  split; [exact R | lia].
Qed.

(** *** The verdicts of the rebuild *)

Lemma rescanned_found c c' :
  rescanned c c' ->
  catalog_has c = negb (is_not_found c')
  /\ (status c' = GCS_UNKNOWN \/ status c' = GCS_NOT_FOUND).
Proof.
  unfold rescanned, catalog_has, is_not_found.
  intros (_ & _ & _ & H).
  destruct (FindGRFConfig (grfid c) (md5sum c)).
  - destruct H as (_ & _ & _ & ->). split; [reflexivity | now left].
  - destruct H as (-> & _). split; [reflexivity | now right].
Qed.

Lemma rescanned_all_found l l' :
  Forall2 rescanned l l' ->
  forallb catalog_has l = negb (existsb is_not_found l')
  /\ Forall (fun c' => status c' = GCS_UNKNOWN \/ status c' = GCS_NOT_FOUND) l'.
Proof.
  induction 1 as [|c c' l l' R _ [IH1 IH2]]; simpl.
  - split; [reflexivity | constructor].
  - destruct (rescanned_found _ _ R) as [E S]. rewrite E, IH1.
    split; [now rewrite negb_orb | now constructor].
Qed.

Lemma rescan_items_from l l' n :
  rescan_items l = Some l' -> In n l' ->
  exists item, In (fst n, item) l /\ rescan_item item = Some (snd n).
Proof.
  revert l' n. induction l as [|[q it] rest IH]; simpl; intros l' n H HIn.
  - injection H as <-. contradiction.
  - destruct (rescan_item it) as [it'|] eqn:R; [|discriminate].
    destruct (rescan_items rest) as [rest'|] eqn:RS; [|discriminate].
    injection H as <-. destruct HIn as [E|HIn].
    + subst n. exists it. split; [now left | exact R].
    + destruct (IH _ _ eq_refl HIn) as (item & I & E).
      exists item. split; [now right | exact E].
Qed.

(** X13: what a rebuild after a scan returns is consistent in itself: every
    descriptor has status unknown or not-found, never another one, and an
    entry is compatible exactly when it is version compatible and none of
    its descriptors is not-found. *)
Theorem rebuild_verdicts_are_consistent (st st' : State) (n : Node) :
  NetworkAfterNewGRFScan st = Some st' ->
  In n (network_game_list st') ->
  Forall (fun c => status c = GCS_UNKNOWN \/ status c = GCS_NOT_FOUND)
         (grfconfig (game_info (snd n)))
  /\ compatible (game_info (snd n))
     = version_compatible (game_info (snd n))
       && negb (existsb is_not_found (grfconfig (game_info (snd n)))).
Proof.
  unfold NetworkAfterNewGRFScan.
  destruct (rescan_items (network_game_list st)) as [l|] eqn:R; [|discriminate].
  intros [= <-] HIn. cbn [network_game_list emit set_game_list] in HIn.
  destruct (rescan_items_from _ _ _ R HIn) as (item & _ & RI).
  unfold rescan_item in RI.
  destruct (rescan_configs _ _) as [[cl compat]|] eqn:RC; [|discriminate].
  injection RI as RI. rewrite <- RI.
  cbn [game_info set_info grfconfig compatible version_compatible].
  apply rescan_configs_rescanned in RC as [F ->].
  destruct (rescanned_all_found _ _ F) as [E A].
  split; [exact A | now rewrite E].
Qed.

(** *** A push that runs alone *)

Lemma same_pointer_refl a : same_pointer a a = true.
Proof. clear. destruct a; simpl; [apply Nat.eqb_refl | reflexivity]. Qed.

Lemma run_at_load s p :
  pc_of s p = AtLoad -> push_step (Run p) s = load p (head s) s.
Proof. clear. intros H. unfold push_step. now rewrite H. Qed.

Lemma run_at_exchange s p :
  pc_of s p = AtCompareExchange /\ head s = next_of s p ->
  push_step (Run p) s
  = {| head := Some p; next_of := next_of s; pc_of := upd (pc_of s) p Returned |}.
Proof.
  clear. intros [H E]. unfold push_step. rewrite H, E.
  now rewrite same_pointer_refl.
Qed.

Lemma run_at_failed_exchange s p :
  pc_of s p = AtCompareExchange -> same_pointer (head s) (next_of s p) = false ->
  push_step (Run p) s = reload p s.
Proof. clear. intros H E. unfold push_step. now rewrite H, E. Qed.

Lemma run_returned s p : pc_of s p = Returned -> push_step (Run p) s = s.
Proof. clear. intros H. unfold push_step. now rewrite H. Qed.

(** X14: a producer that runs alone returns after at most three steps (the
    load, at most one failed exchange, the exchange): its item is the head,
    its [next] is the former head, the items of the other producers are
    not touched, and the list linked from the head is the former list with
    the item in front. *)
Theorem push_alone_returns (s : PushState) (p : ptr) :
  pc_of s p <> Returned ->
  let s' := run_pushes [Run p; Run p; Run p] s in
  pc_of s' p = Returned
  /\ head s' = Some p
  /\ next_of s' p = head s
  /\ (forall q, q <> p -> next_of s' q = next_of s q /\ pc_of s' q = pc_of s q)
  /\ (forall l, linked (next_of s) (head s) l -> ~ In p l ->
      linked (next_of s') (head s') (p :: l)).
Proof.
  clear. intros Hpc s'.
  assert (Core : pc_of s' p = Returned /\ head s' = Some p
                 /\ next_of s' p = head s
                 /\ (forall q, q <> p ->
                     next_of s' q = next_of s q /\ pc_of s' q = pc_of s q)).
  { subst s'. unfold run_pushes. cbn [fold_left].
    destruct (pc_of s p) eqn:PC; [| |contradiction].
    - rewrite (run_at_load s p PC).
      rewrite (run_at_exchange (load p (head s) s) p)
        by (split; cbn [load pc_of head next_of]; rewrite ?upd_same; reflexivity).
      rewrite run_returned by (cbn [pc_of]; apply upd_same).
      cbn [pc_of head next_of load].
      split; [apply upd_same|]. split; [reflexivity|]. split; [apply upd_same|].
      intros q Hq. now rewrite !upd_other by exact Hq.
    - destruct (same_pointer (head s) (next_of s p)) eqn:CE.
      + apply same_pointer_eq in CE.
        rewrite (run_at_exchange s p) by (split; assumption).
        set (e := {| head := Some p; next_of := next_of s;
                     pc_of := upd (pc_of s) p Returned |}).
        assert (Pe : pc_of e p = Returned) by apply upd_same.
        rewrite !(run_returned e p Pe). unfold e.
        cbn [pc_of head next_of].
        split; [apply upd_same|]. split; [reflexivity|]. split; [now rewrite CE|].
        intros q Hq. now rewrite upd_other by exact Hq.
      + rewrite (run_at_failed_exchange s p PC CE).
        rewrite (run_at_exchange (reload p s) p)
          by (split; cbn [reload observe pc_of head next_of];
              rewrite ?upd_same; auto).
        rewrite run_returned by (cbn [pc_of]; apply upd_same).
        cbn [pc_of head next_of reload observe].
        split; [apply upd_same|]. split; [reflexivity|]. split; [apply upd_same|].
        intros q Hq. now rewrite !upd_other by exact Hq. }
  destruct Core as (C1 & C2 & C3 & C4).
  split; [exact C1|]. split; [exact C2|]. split; [exact C3|]. split; [exact C4|].
  intros l L Hp. rewrite C2. cbn [linked]. split; [reflexivity|]. rewrite C3.
  clear - L Hp C4. revert L. generalize (head s) as h.
  induction l as [|q l IH]; intros h L; cbn [linked] in *; [exact L|].
  destruct L as [-> L]. split; [reflexivity|].
  assert (Hq : q <> p) by (intros ->; apply Hp; now left).
  rewrite (proj1 (C4 q Hq)). apply IH; [|exact L].
  intros F. apply Hp. now right.
Qed.

(** *** What the merges of a drain leave in the game list *)

Lemma merges_keys (l : list Node) st k :
  In k (keys (network_game_list (fold_left (fun s ins => merge_delayed ins s) l st)))
  <-> In k (keys (network_game_list st)) \/ In k (map resolved_address l).
Proof.
  clear FindUnknownGRFName FindGRFConfig.
  revert st. induction l as [|ins l IH]; intros st; simpl; [tauto|].
  rewrite IH. destruct (merge_delayed_grows ins st) as (_ & _ & _ & _ & I).
  rewrite I. unfold resolved_address. intuition.
Qed.

Lemma merge_delayed_reaches ins st :
  exists p item,
    In (p, item) (network_game_list (merge_delayed ins st))
    /\ connection_string item = resolved_address ins
    /\ (manually (snd ins) = true -> manually item = true)
    /\ (server_name (game_info (snd ins)) <> EmptyString ->
        server_name (game_info item) <> EmptyString).
Proof.
  destruct (merge_delayed_unfold ins st) as (p & x & N & _).
  pose proof (merge_delayed_target _ _ _ _ N) as T.
  exists p, (merge_item (snd ins) x). split; [|split; [|split]].
  - rewrite T. eapply nth_error_In. exact (nth_error_update_at _ _ _ _ _ N).
  - rewrite merge_item_key.
    pose proof (add_item_finds (connection_string (snd ins)) st) as F.
    destruct (find_item_Some _ _ _ F) as (q & y & N2 & K).
    assert (E : (q, y) = (p, x)) by (unfold Node in *; congruence).
    injection E as -> ->. exact K.
  - intros M. unfold merge_item.
    destruct (String.eqb (server_name (game_info x)) EmptyString);
      cbn [manually set_manually]; rewrite M; apply orb_true_r.
  - intros NZ. unfold merge_item.
    destruct (String.eqb_spec (server_name (game_info x)) EmptyString);
      cbn [game_info set_manually placeholder_of set_online set_info server_name];
      assumption.
Qed.

Lemma merges_reach (l : list Node) st ins :
  In ins l ->
  exists p item,
    In (p, item) (network_game_list (fold_left (fun s i => merge_delayed i s) l st))
    /\ connection_string item = resolved_address ins
    /\ (manually (snd ins) = true -> manually item = true)
    /\ (server_name (game_info (snd ins)) <> EmptyString ->
        server_name (game_info item) <> EmptyString).
Proof.
  revert st. induction l as [|x l IH]; intros st HIn; [contradiction|].
  simpl. destruct HIn as [->|HIn]; [|now apply IH].
  destruct (merge_delayed_reaches ins st) as (p & item & I & K & M & NZ).
  destruct (merges_keep_entry l _ _ _ I) as (item' & I' & K' & _ & M' & G').
  exists p, item'. split; [exact I'|]. split; [congruence|]. split; [auto|].
  intros H. specialize (NZ H). destruct (G' NZ) as [Gi _]. now rewrite Gi.
Qed.

Lemma window_updates_app x y :
  window_updates (x ++ y) = (window_updates x + window_updates y)%nat.
Proof. clear. unfold window_updates. now rewrite filter_app, length_app. Qed.

Lemma merge_delayed_window_updates ins st :
  (window_updates (events (merge_delayed ins st)) + List.length (network_game_list st)
   = window_updates (events st) + 1
     + List.length (network_game_list (merge_delayed ins st)))%nat.
Proof.
  destruct (merge_delayed_unfold ins st) as (p & item & _ & ->).
  cbn [events emit set_game_list network_game_list].
  rewrite update_at_length, add_item_events, add_item_list, find_item_has_key.
  rewrite !window_updates_app, length_app.
  destruct (find_item _ _);
    destruct (String.eqb (server_name (game_info item)) EmptyString);
    destruct (manually (merge_item (snd ins) item));
    change (window_updates []) with 0%nat;
    change (window_updates [UpdateNetworkGameWindow]) with 1%nat;
    change (window_updates [DeleteItem (fst ins)]) with 0%nat;
    change (window_updates [ClearGRFConfigList p]) with 0%nat;
    change (window_updates [NetworkRebuildHostList]) with 0%nat;
    cbn [List.length]; lia.
Qed.

Lemma merges_window_updates (l : list Node) st :
  (window_updates (events (fold_left (fun s i => merge_delayed i s) l st))
   + List.length (network_game_list st)
   = window_updates (events st) + List.length l
     + List.length (network_game_list (fold_left (fun s i => merge_delayed i s) l st)))%nat.
Proof.
  revert st. induction l as [|ins l IH]; intros st; simpl; [lia|].
  pose proof (IH (merge_delayed ins st)) as H.
  pose proof (merge_delayed_window_updates ins st) as H1. lia.
Qed.

(** C4: when the producers of [items], one item each, have all returned
    after any schedule of their loads and compare-exchanges, the delayed
    insertion list holds every pushed item exactly once, and the one drain
    that follows merges every item of that list once and leaves the list
    empty: every pushed item is deleted, once; the game window is updated
    once for each item, and once more for each entry created; the
    addresses in the game list are the old ones and those of the pushed
    items; and every pushed item has reached its entry, which is manually
    added when the item is, and named when the item is. *)
Theorem pushes_all_merged_once
  (items : list Node) (schedule : list PushAction) (st : State) :
  NoDup (map fst items) ->
  all_returned items (run_pushes schedule (push_init items)) = true ->
  let queue := pushed_list items (run_pushes schedule (push_init items)) in
  let st' := NetworkGameListHandleDelayedInsert (set_delayed queue st) in
  Permutation queue items
  /\ List.length queue = List.length items
  /\ st' = fold_left (fun s ins => merge_delayed ins s) queue (set_delayed [] st)
  /\ network_game_delayed_insertion_list st' = []
  /\ deleted (events st') = (deleted (events st) ++ map fst queue)%list
  /\ Permutation (map fst queue) (map fst items)
  /\ (window_updates (events st') + List.length (network_game_list st)
      = window_updates (events st) + List.length items
        + List.length (network_game_list st'))%nat
  /\ (forall k,
        In k (keys (network_game_list st'))
        <-> In k (keys (network_game_list st)) \/ In k (map resolved_address items))
  /\ (forall ins,
        In ins items ->
        exists p item,
          In (p, item) (network_game_list st')
          /\ connection_string item = resolved_address ins
          /\ (manually (snd ins) = true -> manually item = true)
          /\ (server_name (game_info (snd ins)) <> EmptyString ->
              server_name (game_info item) <> EmptyString)).
Proof.
  intros ND AR queue st'.
  pose proof (pushed_list_permutation items schedule ND AR) as P.
  fold queue in P.
  assert (E : st' = fold_left (fun s ins => merge_delayed ins s) queue
                              (set_delayed [] st)).
  { unfold st'. rewrite HandleDelayedInsert_merges. reflexivity. }
  split; [exact P|]. split; [exact (Permutation_length P)|].
  split; [exact E|]. split; [|split; [|split; [|split; [|split]]]].
  - rewrite E. now rewrite merges_queue.
  - rewrite E. now rewrite merges_deleted.
  - now apply Permutation_map.
  - rewrite E, <- (Permutation_length P).
    exact (merges_window_updates queue (set_delayed [] st)).
  - intros k. rewrite E, merges_keys. cbn [network_game_list set_delayed].
    split; (intros [H|H]; [now left | right]).
    + eapply Permutation_in; [apply Permutation_map; exact P | exact H].
    + eapply Permutation_in;
        [apply Permutation_map; apply Permutation_sym; exact P | exact H].
  - intros ins HIn. rewrite E. apply merges_reach.
    eapply Permutation_in; [apply Permutation_sym; exact P | exact HIn].
Qed.

(** *** The drain while producers push *)

Lemma set_delayed_same st :
  set_delayed (network_game_delayed_insertion_list st) st = st.
Proof. clear. destruct st; reflexivity. Qed.

Lemma delayed_insert_loop_with_order fuel arrivals st :
  (List.length (network_game_delayed_insertion_list st)
   + List.length (concat arrivals) <= fuel)%nat ->
  delayed_insert_loop_with fuel arrivals st
  = fold_left (fun s ins => merge_delayed ins s)
      (pop_order fuel arrivals (network_game_delayed_insertion_list st))
      (set_delayed [] st).
Proof.
  revert arrivals st. induction fuel as [|fuel IH]; intros arrivals st H; simpl.
  - destruct (network_game_delayed_insertion_list st) eqn:E; [|simpl in H; lia].
    rewrite <- E. now rewrite set_delayed_same.
  - destruct (network_game_delayed_insertion_list st) as [|ins next] eqn:E.
    + cbn [fold_left]. rewrite <- E. now rewrite set_delayed_same.
    + rewrite push_all_is_set_delayed.
      cbn [network_game_delayed_insertion_list set_delayed].
      change (set_delayed (rev (hd [] arrivals) ++ next) (set_delayed next st))
        with (set_delayed (rev (hd [] arrivals) ++ next) st).
      rewrite merge_delayed_set_delayed, IH.
      * cbn [network_game_delayed_insertion_list set_delayed fold_left].
        change (set_delayed [] (set_delayed (rev (hd [] arrivals) ++ next)
                                  (merge_delayed ins st)))
          with (set_delayed [] (merge_delayed ins st)).
        now rewrite <- merge_delayed_set_delayed.
      * cbn [network_game_delayed_insertion_list set_delayed].
        rewrite length_app, length_rev. simpl in H.
        destruct arrivals as [|a arrivals]; simpl in *; [lia|].
        rewrite length_app in H. lia.
Qed.

Lemma pop_order_permutation fuel arrivals queue :
  (List.length queue + List.length (concat arrivals) <= fuel)%nat ->
  Permutation (pop_order fuel arrivals queue)
    (queue ++ concat (firstn (List.length (pop_order fuel arrivals queue)) arrivals)).
Proof.
  clear. revert arrivals queue.
  induction fuel as [|fuel IH]; intros arrivals queue H; simpl.
  - destruct queue; [constructor | simpl in H; lia].
  - destruct queue as [|ins next]; [constructor|].
    simpl. constructor.
    destruct arrivals as [|b rest]; simpl in *.
    + specialize (IH [] next). rewrite firstn_nil in IH. simpl in IH.
      apply IH. lia.
    + rewrite length_app in H.
      assert (H' : (List.length (rev b ++ next) + List.length (concat rest)
                    <= fuel)%nat)
        by (rewrite length_app, length_rev; lia).
      eapply perm_trans; [exact (IH rest (rev b ++ next)%list H')|].
      rewrite <- !app_assoc. rewrite !app_assoc.
      apply Permutation_app_tail.
      eapply perm_trans; [apply Permutation_app_comm|].
      apply Permutation_app_head. apply Permutation_sym, Permutation_rev.
Qed.

Lemma landed_batch {A : Type} (l : list (list A)) k n batch x :
  (k < n)%nat -> nth_error l k = Some batch -> In x batch ->
  In x (concat (firstn n l)).
Proof.
  clear. revert k n. induction l as [|b l IH]; intros k n Hk N Hx.
  - destruct k; discriminate.
  - destruct n as [|n]; [lia|]. simpl. apply in_or_app.
    destruct k as [|k]; simpl in N.
    + injection N as ->. now left.
    + right. apply (IH k n); [lia | exact N | exact Hx].
Qed.

(** C3: the drain pops one item per turn of its loop and merges it before
    the next pop.  With no push landing during the drain this is the drain of
    the one-exchange design (take the whole list, then walk it).  With
    pushes landing during the drain, the items it merges are those that
    were queued and, with them, every item pushed while it ran: each of them
    is popped, merged into the game list and deleted by this same drain,
    which ends with the list empty. *)
Theorem drain_one_by_one_equals_swap_when_alone (st : State) :
  NetworkGameListHandleDelayedInsert st = swap_then_walk st
  /\ HandleDelayedInsert_with [] st = NetworkGameListHandleDelayedInsert st
  /\ forall arrivals,
       let order := drain_order arrivals st in
       let st' := HandleDelayedInsert_with arrivals st in
       Permutation order
         (network_game_delayed_insertion_list st
            ++ concat (firstn (List.length order) arrivals))
       /\ (forall k batch ins,
             (k < List.length order)%nat -> nth_error arrivals k = Some batch ->
             In ins batch -> In ins order)
       /\ st' = fold_left (fun s ins => merge_delayed ins s) order (set_delayed [] st)
       /\ network_game_delayed_insertion_list st' = []
       /\ deleted (events st') = (deleted (events st) ++ map fst order)%list
       /\ (forall k,
             In k (keys (network_game_list st'))
             <-> In k (keys (network_game_list st))
                 \/ In k (map resolved_address order))
       /\ (forall ins,
             In ins order ->
             exists p item,
               In (p, item) (network_game_list st')
               /\ connection_string item = resolved_address ins
               /\ (manually (snd ins) = true -> manually item = true)
               /\ (server_name (game_info (snd ins)) <> EmptyString ->
                   server_name (game_info item) <> EmptyString)).
Proof.
  split; [|split].
  - rewrite HandleDelayedInsert_merges.
    unfold swap_then_walk, swap_then_walk_with.
    now rewrite walk_taken_no_arrivals.
  - unfold HandleDelayedInsert_with, NetworkGameListHandleDelayedInsert. simpl.
    rewrite Nat.add_0_r. apply delayed_insert_loop_no_arrivals.
  - intros arrivals order st'.
    assert (P : Permutation order
                  (network_game_delayed_insertion_list st
                     ++ concat (firstn (List.length order) arrivals)))
      by (apply pop_order_permutation; lia).
    assert (E : st' = fold_left (fun s ins => merge_delayed ins s) order
                                (set_delayed [] st))
      by (apply delayed_insert_loop_with_order; lia).
    split; [exact P|]. split; [|split; [exact E|split; [|split; [|split]]]].
    + intros k batch ins Hk N Hx.
      eapply Permutation_in; [apply Permutation_sym; exact P|].
      apply in_or_app. right. exact (landed_batch _ _ _ _ _ Hk N Hx).
    + rewrite E. now rewrite merges_queue.
    + rewrite E. now rewrite merges_deleted.
    + intros k. rewrite E, merges_keys. reflexivity.
    + intros ins HIn. rewrite E. now apply merges_reach.
Qed.

(** X8: after every game loop the requery counter, a uint8, is below 60;
    and a loop that completes a window sets the counter to zero and leaves
    every entry of the game list with less than 50 retries, whatever the
    retries were before, those about to wrap around included. *)
Theorem game_loop_bounds (st : State) :
  let st' := NetworkGameListRequery st in
  0 <= requery_cnt st' < 60
  /\ (REQUERY_EVERY_X_GAMELOOPS <= uint8 (requery_cnt st + 1) ->
      requery_cnt st' = 0
      /\ forall n, In n (network_game_list st') -> 0 <= retries (snd n) < 50).
Proof.
  intros st'. subst st'. unfold NetworkGameListRequery.
  rewrite HandleDelayedInsert_merges.
  set (st1 := fold_left _ _ _).
  assert (C1 : requery_cnt st1 = requery_cnt st)
    by (unfold st1; now rewrite merges_requery_cnt).
  rewrite C1.
  assert (B : 0 <= uint8 (requery_cnt st + 1) < 256)
    by (apply Z.mod_pos_bound; lia).
  unfold REQUERY_EVERY_X_GAMELOOPS in *.
  destruct (Z.ltb_spec (uint8 (requery_cnt st + 1)) 60) as [L|L].
  - cbn [requery_cnt set_requery_cnt]. split; lia.
  - pose proof (requery_loop_from (network_game_list st1)) as F.
    destruct (requery_loop (network_game_list st1)) as [l evs].
    cbn [requery_cnt set_requery_cnt network_game_list emit set_game_list fst] in *.
    split; [lia|].
    intros _. split; [reflexivity|]. intros n Hn.
    destruct (F n Hn) as (item & _ & ->).
    destruct (requery_item_frame item) as (r & -> & R). exact R.
Qed.

End GameList.

(** *** A rebuild after the catalog changed *)

Section CatalogChange.

Set Default Proof Using "Type".

(** The catalog at an earlier rebuild and the catalog now, with one cache of
    unknown names. *)
Variable FindGRFConfig_before FindGRFConfig_now : Z -> list Z -> option GRFConfig.
Variable FindUnknownGRFName : Z -> list Z -> bool -> string.
Variable GCF_COPY : Z.

Lemma rescan_config_after c k1 c1 k1' k2 :
  rescan_config FindGRFConfig_before FindUnknownGRFName GCF_COPY c k1
  = Some (c1, k1') ->
  exists c12 c2,
    rescan_config FindGRFConfig_now FindUnknownGRFName GCF_COPY c1 k2
    = Some (c12, k2 && catalog_has FindGRFConfig_now c)
    /\ rescan_config FindGRFConfig_now FindUnknownGRFName GCF_COPY c k2
       = Some (c2, k2 && catalog_has FindGRFConfig_now c)
    /\ verdict c12 = verdict c2
    /\ (catalog_has FindGRFConfig_now c = true -> c12 = c2).
Proof.
  unfold rescan_config, catalog_has.
  destruct (HasBit (flags c) GCF_COPY) eqn:B; [|discriminate].
  destruct (FindGRFConfig_before (grfid c) (md5sum c)); intros [= <- <-];
    cbn [grfid md5sum flags]; rewrite B;
    destruct (FindGRFConfig_now (grfid c) (md5sum c));
    rewrite ?andb_true_r, ?andb_false_r;
    eexists; eexists; (split; [reflexivity|]); (split; [reflexivity|]);
    (split; [reflexivity|]); try reflexivity; discriminate.
Qed.

Lemma rescan_configs_after l k1 l1 k1' k2 :
  rescan_configs FindGRFConfig_before FindUnknownGRFName GCF_COPY l k1
  = Some (l1, k1') ->
  exists l12 l2,
    rescan_configs FindGRFConfig_now FindUnknownGRFName GCF_COPY l1 k2
    = Some (l12, k2 && forallb (catalog_has FindGRFConfig_now) l)
    /\ rescan_configs FindGRFConfig_now FindUnknownGRFName GCF_COPY l k2
       = Some (l2, k2 && forallb (catalog_has FindGRFConfig_now) l)
    /\ map verdict l12 = map verdict l2
    /\ (forallb (catalog_has FindGRFConfig_now) l = true -> l12 = l2).
Proof.
  revert k1 l1 k1' k2.
  induction l as [|c rest IH]; simpl; intros k1 l1 k1' k2 H.
  - injection H as <- <-. exists [], []. simpl. rewrite andb_true_r. auto.
  - destruct (rescan_config FindGRFConfig_before _ _ c k1) as [[c1 k]|] eqn:R;
      [|discriminate].
    destruct (rescan_configs FindGRFConfig_before _ _ rest k) as [[rest1 k']|] eqn:RS;
      [|discriminate].
    injection H as <- <-.
    destruct (rescan_config_after _ _ _ _ k2 R) as (c12 & c2 & E1 & E2 & V & Same).
    destruct (IH _ _ _ (k2 && catalog_has FindGRFConfig_now c) RS)
      as (l12 & l2 & F1 & F2 & VL & SameL).
    exists (c12 :: l12), (c2 :: l2). simpl.
    rewrite E1, E2, F1, F2, andb_assoc.
    split; [reflexivity|]. split; [reflexivity|]. split; [now rewrite V, VL|].
    intros A. apply andb_true_iff in A as [A1 A2].
    now rewrite (Same A1), (SameL A2).
Qed.

Lemma rescan_item_after item item1 :
  rescan_item FindGRFConfig_before FindUnknownGRFName GCF_COPY item = Some item1 ->
  exists item12 item2,
    rescan_item FindGRFConfig_now FindUnknownGRFName GCF_COPY item1 = Some item12
    /\ rescan_item FindGRFConfig_now FindUnknownGRFName GCF_COPY item = Some item2
    /\ item_verdict item12 = item_verdict item2
    /\ (forallb (catalog_has FindGRFConfig_now) (grfconfig (game_info item)) = true ->
        item12 = item2).
Proof.
  unfold rescan_item.
  destruct (rescan_configs FindGRFConfig_before _ _ _ _) as [[l1 k1]|] eqn:R;
    [|discriminate].
  intros [= <-]. cbn [game_info set_info grfconfig version_compatible server_name].
  destruct (rescan_configs_after _ _ _ _ (version_compatible (game_info item)) R)
    as (l12 & l2 & -> & -> & V & Same).
  eexists. eexists. split; [reflexivity|]. split; [reflexivity|].
  split.
  - unfold item_verdict. cbn. now rewrite V.
  - intros A. now rewrite (Same A).
Qed.

Lemma rescan_items_after l l1 :
  rescan_items FindGRFConfig_before FindUnknownGRFName GCF_COPY l = Some l1 ->
  exists l12 l2,
    rescan_items FindGRFConfig_now FindUnknownGRFName GCF_COPY l1 = Some l12
    /\ rescan_items FindGRFConfig_now FindUnknownGRFName GCF_COPY l = Some l2
    /\ map (fun n : Node => (fst n, item_verdict (snd n))) l12
       = map (fun n : Node => (fst n, item_verdict (snd n))) l2
    /\ ((forall n, In n l ->
         forallb (catalog_has FindGRFConfig_now) (grfconfig (game_info (snd n)))
         = true) ->
        l12 = l2).
Proof.
  revert l1. induction l as [|[p item] rest IH]; simpl; intros l1 H.
  - injection H as <-. exists [], []. simpl. auto.
  - destruct (rescan_item FindGRFConfig_before _ _ item) as [item1|] eqn:R;
      [|discriminate].
    destruct (rescan_items FindGRFConfig_before _ _ rest) as [rest1|] eqn:RS;
      [|discriminate].
    injection H as <-.
    destruct (rescan_item_after _ _ R) as (item12 & item2 & E1 & E2 & V & Same).
    destruct (IH _ eq_refl) as (l12 & l2 & F1 & F2 & VL & SameL).
    exists ((p, item12) :: l12), ((p, item2) :: l2). simpl.
    rewrite E1, E2, F1, F2.
    split; [reflexivity|]. split; [reflexivity|]. split; [now rewrite V, VL|].
    intros A. rewrite Same, SameL; [reflexivity| |].
    + intros n Hn. apply A. now right.
    + apply (A (p, item)). now left.
Qed.

(** X15: a rebuild does not depend on the catalog of an earlier rebuild.
    After a rebuild with an earlier catalog, the rebuild with the catalog of
    now returns, and gives every entry the fields, and every descriptor the
    name and status, that the rebuild of the first game list with the
    catalog of now gives; the game lists are equal when the catalog of now
    has every descriptor.  Only the file name and the info of a descriptor
    that the catalog of now lacks can be left from the earlier catalog. *)
Theorem rebuild_forgets_earlier_catalog (st s1 : State) :
  NetworkAfterNewGRFScan FindGRFConfig_before FindUnknownGRFName GCF_COPY st
  = Some s1 ->
  exists s12 s2,
    NetworkAfterNewGRFScan FindGRFConfig_now FindUnknownGRFName GCF_COPY s1
    = Some s12
    /\ NetworkAfterNewGRFScan FindGRFConfig_now FindUnknownGRFName GCF_COPY st
       = Some s2
    /\ map (fun n : Node => (fst n, item_verdict (snd n))) (network_game_list s12)
       = map (fun n : Node => (fst n, item_verdict (snd n))) (network_game_list s2)
    /\ ((forall n, In n (network_game_list st) ->
         forallb (catalog_has FindGRFConfig_now) (grfconfig (game_info (snd n)))
         = true) ->
        network_game_list s12 = network_game_list s2).
Proof.
  unfold NetworkAfterNewGRFScan.
  destruct (rescan_items FindGRFConfig_before _ _ _) as [l1|] eqn:R; [|discriminate].
  intros [= <-]. cbn [network_game_list emit set_game_list].
  destruct (rescan_items_after _ _ R) as (l12 & l2 & -> & -> & V & Same).
  eexists. eexists. split; [reflexivity|]. split; [reflexivity|].
  cbn [network_game_list emit set_game_list]. split; assumption.
Qed.

End CatalogChange.


(** ** The theorems at the sample data *)

Lemma requery_cadence_witness :
  queries_for "a:3979"
    (events (run_ticks sample_port sample_resolve
               (repeat ([] : list Node) 600) offline_state))
  = queries_for "a:3979" (events offline_state)
    + offline_queries (Z.of_nat (List.length (repeat ([] : list Node) 600)) / 60).
Proof.
  refine (proj1 (requery_cadence sample_port sample_resolve offline_state
                   "a:3979" 0%nat (new_NetworkGameList "a:3979")
                   (repeat [] 600) _ _ _ _ _ _)).
  - simpl. constructor; [intros [] | constructor].
  - reflexivity.
  - left. reflexivity.
  - reflexivity.
  - reflexivity.
  - reflexivity.
Defined.

(** Against C1 as stated: the offline entry has received nine queries after
    nine windows and still nine after ten, so the tenth window issues none. *)
Lemma tenth_window_issues_no_query :
  queries_for "a:3979"
    (events (run_ticks sample_port sample_resolve
               (repeat ([] : list Node) 540) offline_state)) = 9
  /\ queries_for "a:3979"
       (events (run_ticks sample_port sample_resolve
                  (repeat ([] : list Node) 600) offline_state)) = 9
  /\ queries_for "a:3979"
       (events (run_ticks sample_port sample_resolve
                  (repeat ([] : list Node) 600) offline_state)) <> 10.
Proof. vm_compute. repeat split; discriminate. Qed.

Lemma merge_resets_entry_without_name_witness :
  NetworkGameListHandleDelayedInsert sample_port sample_resolve unnamed_online_state
  = fold_left (fun s i => merge_delayed sample_port sample_resolve i s) []
      (merge_delayed sample_port sample_resolve (1%nat, new_NetworkGameList "a:3979")
         (drained sample_port sample_resolve [] unnamed_online_state)).
Proof.
  exact (proj1 (merge_resets_entry_without_name sample_port sample_resolve
                  unnamed_online_state [] []
                  (1%nat, new_NetworkGameList "a:3979") eq_refl)).
Defined.

(** Against C2 as stated: the popped item has no server name, and yet the
    entry, which was online with one descriptor, is cleared and offline. *)
Lemma unnamed_item_still_resets_entry :
  let st' := NetworkGameListHandleDelayedInsert sample_port sample_resolve
               unnamed_online_state in
  map (fun n : Node => server_name (game_info (snd n)))
      (network_game_delayed_insertion_list unnamed_online_state) = [EmptyString]
  /\ map (fun n : Node => (online (snd n), List.length (grfconfig (game_info (snd n)))))
         (network_game_list unnamed_online_state) = [(true, 1%nat)]
  /\ map (fun n : Node => (online (snd n), List.length (grfconfig (game_info (snd n)))))
         (network_game_list st') = [(false, 0%nat)]
  /\ clears 0%nat (events_since unnamed_online_state st') = true.
Proof. vm_compute. repeat split. Qed.

(** Against C3 as stated: an item pushed while the first item is merged is
    merged by the same drain, where the one-exchange drain leaves it on the
    delayed insertion list. *)
Lemma push_during_drain_is_merged_at_once :
  keys (network_game_list
          (HandleDelayedInsert_with sample_port sample_resolve [[item_b]]
             one_delayed_state)) = ["a:3979"; "b:3979"]
  /\ network_game_delayed_insertion_list
       (HandleDelayedInsert_with sample_port sample_resolve [[item_b]]
          one_delayed_state) = []
  /\ keys (network_game_list
             (swap_then_walk_with sample_port sample_resolve [[item_b]]
                one_delayed_state)) = ["a:3979"]
  /\ network_game_delayed_insertion_list
       (swap_then_walk_with sample_port sample_resolve [[item_b]]
          one_delayed_state) = [item_b]
  /\ HandleDelayedInsert_with sample_port sample_resolve [[item_b]] one_delayed_state
     <> swap_then_walk_with sample_port sample_resolve [[item_b]] one_delayed_state.
Proof.
  repeat split; try (vm_compute; reflexivity).
  intros H. apply (f_equal network_game_delayed_insertion_list) in H.
  vm_compute in H. discriminate.
Qed.

Lemma drain_one_by_one_equals_swap_when_alone_witness :
  In item_b (drain_order [[item_b]] one_delayed_state)
  /\ exists p item,
       In (p, item)
          (network_game_list
             (HandleDelayedInsert_with sample_port sample_resolve [[item_b]]
                one_delayed_state))
       /\ connection_string item = resolved_address sample_port sample_resolve item_b
       /\ (manually (snd item_b) = true -> manually item = true)
       /\ (server_name (game_info (snd item_b)) <> EmptyString ->
           server_name (game_info item) <> EmptyString).
Proof.
  destruct (proj2 (proj2 (drain_one_by_one_equals_swap_when_alone
                            sample_port sample_resolve one_delayed_state))
              [[item_b]])
    as (_ & B & _ & _ & _ & _ & R).
  assert (I : In item_b (drain_order [[item_b]] one_delayed_state)).
  { apply (B 0%nat [item_b] item_b); [vm_compute; lia | reflexivity | now left]. }
  split; [exact I | exact (R item_b I)].
Defined.

Lemma pushes_all_merged_once_witness :
  let queue :=
    pushed_list [item_a; item_b]
      (run_pushes racing_schedule (push_init [item_a; item_b])) in
  Permutation queue [item_a; item_b]
  /\ exists p item,
       In (p, item)
          (network_game_list
             (NetworkGameListHandleDelayedInsert sample_port sample_resolve
                (set_delayed queue offline_state)))
       /\ connection_string item = resolved_address sample_port sample_resolve item_b.
Proof.
  assert (ND : NoDup (map fst [item_a; item_b])).
  { simpl. constructor; [intros [H|[]]; discriminate|].
    constructor; [intros [] | constructor]. }
  pose proof (pushes_all_merged_once sample_port sample_resolve
                [item_a; item_b] racing_schedule offline_state ND eq_refl) as H.
  cbv zeta in *. destruct H as (P & _ & _ & _ & _ & _ & _ & _ & R).
  split; [exact P|].
  destruct (R item_b (or_intror (or_introl eq_refl))) as (p & item & I & K & _).
  exists p, item. split; assumption.
Defined.

Lemma registry_keys_unique_witness :
  NoDup (keys (network_game_list
                 (snd (NetworkGameListAddItem sample_port sample_resolve
                         "a:3979" initial_state)))).
Proof.
  exact (proj1 (registry_keys_unique sample_port sample_resolve
                  sample_FindGRFConfig sample_FindUnknownGRFName sample_GCF_COPY _
                  (reach_add_or_get _ _ _ _ _ "a:3979" initial_state
                     (reach_init _ _ _ _ _)))).
Defined.

Lemma add_or_get_twice_witness :
  fst (NetworkGameListAddItem sample_port sample_resolve "a:3979"
         (snd (NetworkGameListAddItem sample_port sample_resolve "a:3979"
                 initial_state)))
  = fst (NetworkGameListAddItem sample_port sample_resolve "a:3979" initial_state).
Proof.
  exact (proj1 (add_or_get_twice sample_port sample_resolve
                  "a:3979" "a:3979" initial_state eq_refl)).
Defined.

(** Against C6 as stated: the address is in the game list already, and the
    list is no longer after the two calls than before. *)
Lemma add_twice_of_known_address_adds_nothing :
  let r1 := NetworkGameListAddItem sample_port sample_resolve "a:3979" offline_state in
  let r2 := NetworkGameListAddItem sample_port sample_resolve "a:3979" (snd r1) in
  fst r2 = fst r1
  /\ List.length (network_game_list (snd r2))
     = List.length (network_game_list offline_state)
  /\ List.length (network_game_list (snd r2))
     <> S (List.length (network_game_list offline_state)).
Proof. vm_compute. repeat split. discriminate. Qed.

Lemma rebuild_after_scan_postcondition_witness :
  (exists st',
     NetworkAfterNewGRFScan sample_FindGRFConfig sample_FindUnknownGRFName
       sample_GCF_COPY two_descriptors_state = Some st')
  /\ events two_descriptors_rescanned
     = (events two_descriptors_state ++ [InvalidateWindowClassesData])%list.
Proof.
  split.
  - exact (proj1 (rebuild_after_scan_postcondition sample_FindGRFConfig
                    sample_FindUnknownGRFName sample_GCF_COPY
                    two_descriptors_state) eq_refl).
  - exact (proj1 (proj2 (rebuild_after_scan_postcondition sample_FindGRFConfig
                           sample_FindUnknownGRFName sample_GCF_COPY
                           two_descriptors_state)
                    two_descriptors_rescanned eq_refl)).
Defined.

Lemma rebuild_after_scan_twice_witness :
  (exists st1,
     NetworkAfterNewGRFScan sample_FindGRFConfig sample_FindUnknownGRFName
       sample_GCF_COPY two_descriptors_state = Some st1)
  /\ NetworkAfterNewGRFScan sample_FindGRFConfig sample_FindUnknownGRFName
       sample_GCF_COPY two_descriptors_rescanned
     = Some (emit [InvalidateWindowClassesData] two_descriptors_rescanned).
Proof.
  split.
  - exact (proj1 (rebuild_after_scan_twice sample_FindGRFConfig
                    sample_FindUnknownGRFName sample_GCF_COPY
                    two_descriptors_state) eq_refl).
  - exact (proj1 (proj2 (rebuild_after_scan_twice sample_FindGRFConfig
                           sample_FindUnknownGRFName sample_GCF_COPY
                           two_descriptors_state)
                    two_descriptors_rescanned eq_refl)).
Defined.

Lemma remove_absent_is_noop_witness :
  NetworkGameListRemoveItem 5%nat offline_state = offline_state.
Proof.
  refine (remove_absent_is_noop 5%nat offline_state _).
  simpl. intros [H|[]]. discriminate.
Defined.

Lemma merge_copies_name_and_manually_only_witness :
  NetworkGameListHandleDelayedInsert sample_port sample_resolve named_state
  = fold_left (fun s i => merge_delayed sample_port sample_resolve i s) []
      (merge_delayed sample_port sample_resolve
         (hd item_a (network_game_delayed_insertion_list named_state))
         (drained sample_port sample_resolve [] named_state)).
Proof.
  exact (proj1 (merge_copies_name_and_manually_only sample_port sample_resolve
                  named_state [] []
                  (hd item_a (network_game_delayed_insertion_list named_state))
                  eq_refl)).
Defined.

(** ** The further properties at the sample data *)

Lemma remove_present_unlinks_witness :
  network_game_list (NetworkGameListRemoveItem 0%nat offline_state)
  = (firstn 0 (network_game_list offline_state)
       ++ skipn 1 (network_game_list offline_state))%list
  /\ network_game_list
       (snd (NetworkGameListAddItem sample_port sample_resolve "a:3979"
               (NetworkGameListRemoveItem 0%nat offline_state)))
     = (network_game_list (NetworkGameListRemoveItem 0%nat offline_state)
          ++ [(heap_top offline_state, new_NetworkGameList "a:3979")])%list.
Proof.
  assert (ND : NoDup (map fst (network_game_list offline_state)))
    by (simpl; constructor; [intros [] | constructor]).
  assert (NDk : NoDup (keys (network_game_list offline_state)))
    by (simpl; constructor; [intros [] | constructor]).
  pose proof (remove_present_unlinks sample_port sample_resolve offline_state
                0%nat 0%nat (new_NetworkGameList "a:3979") ND eq_refl) as H.
  cbn zeta in H. destruct H as (G & _ & _ & _ & _ & _ & A).
  split; [exact G | exact (A NDk "a:3979" eq_refl)].
Defined.

Lemma merge_notifications_witness :
  NetworkGameListHandleDelayedInsert sample_port sample_resolve named_state
  = fold_left (fun s i => merge_delayed sample_port sample_resolve i s) []
      (merge_delayed sample_port sample_resolve
         (hd item_a (network_game_delayed_insertion_list named_state))
         (drained sample_port sample_resolve [] named_state)).
Proof.
  exact (proj1 (merge_notifications sample_port sample_resolve named_state [] []
                  (hd item_a (network_game_delayed_insertion_list named_state))
                  eq_refl)).
Defined.

Lemma drain_is_last_in_first_out_witness :
  exists p item,
    In (p, item)
       (network_game_list
          (NetworkGameListHandleDelayedInsert sample_port sample_resolve
             (push_all [item_a; named_item] offline_state)))
    /\ connection_string item = "c:3979"
    /\ server_name (game_info item) = "Gamma".
Proof.
  refine (proj2 (drain_is_last_in_first_out sample_port sample_resolve
                   [item_a; named_item] offline_state)
            [item_a] named_item eq_refl eq_refl _).
  discriminate.
Defined.

Lemma game_loop_keeps_entries_witness :
  exists item',
    In (0%nat, item')
       (network_game_list
          (NetworkGameListRequery sample_port sample_resolve named_state))
    /\ connection_string item' = "a:3979"
    /\ (false = true -> manually item' = true)
    /\ ("Alpha" <> EmptyString ->
        game_info item' = game_info (snd (hd item_a (network_game_list named_state)))
        /\ online item' = true).
Proof.
  exact (game_loop_keeps_entries sample_port sample_resolve named_state 0%nat
           (snd (hd item_a (network_game_list named_state)))
           (or_introl eq_refl)).
Defined.

Lemma game_loop_queries_witness :
  queries_for "a:3979" (events window_end_state)
  <= queries_for "a:3979"
       (events (NetworkGameListRequery sample_port sample_resolve window_end_state))
  <= queries_for "a:3979" (events window_end_state) + 1.
Proof.
  refine (proj1 (game_loop_queries sample_port sample_resolve window_end_state
                   "a:3979" _)).
  simpl. constructor; [intros [H|[]]; discriminate|].
  constructor; [intros [] | constructor].
Defined.

Lemma every_entry_is_refreshed_witness :
  exists item',
    In (1%nat, item')
       (network_game_list
          (run_ticks sample_port sample_resolve (repeat ([] : list Node) 3000)
             named_two_state))
    /\ connection_string item' = "b:3979"
    /\ retries item'
       = (7 + Z.of_nat (List.length (repeat ([] : list Node) 3000)) / 60) mod 50
    /\ queries_for "b:3979" (events named_two_state)
       + (7 + Z.of_nat (List.length (repeat ([] : list Node) 3000)) / 60) / 50
       <= queries_for "b:3979"
            (events (run_ticks sample_port sample_resolve
                       (repeat ([] : list Node) 3000) named_two_state))
       <= queries_for "b:3979" (events named_two_state)
          + Z.of_nat (List.length (repeat ([] : list Node) 3000)) / 60.
Proof.
  refine (every_entry_is_refreshed sample_port sample_resolve named_two_state
            "b:3979" 1%nat (set_retries 7 (new_NetworkGameList "b:3979"))
            (repeat [] 3000) _ eq_refl _ eq_refl _).
  - simpl. constructor; [intros [H|[]]; discriminate|].
    constructor; [intros [] | constructor].
  - right. left. reflexivity.
  - cbn. lia.
Defined.

Lemma online_entry_is_queried_once_in_fifty_windows_witness :
  exists item',
    In (0%nat, item')
       (network_game_list
          (run_ticks sample_port sample_resolve (repeat ([] : list Node) 3000)
             named_two_state))
    /\ connection_string item' = "a:3979"
    /\ named_online item'
    /\ retries item'
       = (3 + Z.of_nat (List.length (repeat ([] : list Node) 3000)) / 60) mod 50
    /\ queries_for "a:3979"
         (events (run_ticks sample_port sample_resolve
                    (repeat ([] : list Node) 3000) named_two_state))
       = queries_for "a:3979" (events named_two_state)
         + (3 + Z.of_nat (List.length (repeat ([] : list Node) 3000)) / 60) / 50.
Proof.
  refine (online_entry_is_queried_once_in_fifty_windows sample_port sample_resolve
            named_two_state "a:3979" 0%nat
            (snd (hd item_a (network_game_list named_two_state)))
            (repeat [] 3000) _ eq_refl _ eq_refl _ _).
  - simpl. constructor; [intros [H|[]]; discriminate|].
    constructor; [intros [] | constructor].
  - left. reflexivity.
  - cbn. lia.
  - split; [reflexivity | discriminate].
Defined.

Lemma rebuild_verdicts_are_consistent_witness :
  let n := hd item_a (network_game_list two_descriptors_rescanned) in
  Forall (fun c => status c = GCS_UNKNOWN \/ status c = GCS_NOT_FOUND)
         (grfconfig (game_info (snd n)))
  /\ compatible (game_info (snd n))
     = version_compatible (game_info (snd n))
       && negb (existsb is_not_found (grfconfig (game_info (snd n)))).
Proof.
  exact (rebuild_verdicts_are_consistent sample_FindGRFConfig
           sample_FindUnknownGRFName sample_GCF_COPY
           two_descriptors_state two_descriptors_rescanned
           (hd item_a (network_game_list two_descriptors_rescanned))
           eq_refl (or_introl eq_refl)).
Defined.

Lemma push_alone_returns_witness :
  pc_of (run_pushes [Run 10%nat; Run 10%nat; Run 10%nat] (push_init [item_a]))
        10%nat = Returned.
Proof.
  refine (proj1 (push_alone_returns (push_init [item_a]) 10%nat _)).
  vm_compute. discriminate.
Defined.

Lemma rebuild_forgets_earlier_catalog_witness :
  exists s12 s2,
    NetworkAfterNewGRFScan sample_full_catalog sample_FindUnknownGRFName
      sample_GCF_COPY two_descriptors_rescanned = Some s12
    /\ NetworkAfterNewGRFScan sample_full_catalog sample_FindUnknownGRFName
         sample_GCF_COPY two_descriptors_state = Some s2
    /\ network_game_list s12 = network_game_list s2.
Proof.
  destruct (rebuild_forgets_earlier_catalog sample_FindGRFConfig sample_full_catalog
              sample_FindUnknownGRFName sample_GCF_COPY
              two_descriptors_state two_descriptors_rescanned eq_refl)
    as (s12 & s2 & A & B & _ & D).
  exists s12, s2. split; [exact A|]. split; [exact B|].
  apply D. intros n [<-|[]]. reflexivity.
Defined.

Lemma game_loop_bounds_witness :
  requery_cnt (NetworkGameListRequery sample_port sample_resolve window_end_state) = 0
  /\ forall n,
       In n (network_game_list
               (NetworkGameListRequery sample_port sample_resolve window_end_state)) ->
       0 <= retries (snd n) < 50.
Proof.
  refine (proj2 (game_loop_bounds sample_port sample_resolve window_end_state) _).
  vm_compute. discriminate.
Defined.
